(** * NeuroVault: the encrypted vault store and the face-match gate

    A shallow embedding of [neurovault_encryptor.py] (class
    [VaultEncryptor]) and of the decision logic of
    [neurovault_face_auth.py] (class [FaceAuthenticator]).

    Python objects and the operating system are modelled by explicit state
    passing: a [state] holds the fields of the [VaultEncryptor] instance
    and the part of the outside world its methods touch (files with their
    permission bits, the wall clock, the entropy pool, and a log of the
    file-system effects performed so far).  Exceptions are a result
    constructor, and [try ... except Exception] is the [try_except]
    combinator.  What the methods print is left out.  The file system is
    flat: a path names at most one regular file, and a file that does not
    exist yet can always be created. *)

From Stdlib Require Import ZArith NArith QArith List String Ascii Lia Bool.
From Stdlib Require Import DecimalString.
From stdpp Require Import gmap strings list.

Local Open Scope N_scope.

(** ** Base data *)

(** [bytes] objects are lists of octets, [str] objects lists of code
    points; paths are plain strings compared by spelling. *)
Definition bytes := list N.
Definition str := list N.
Definition path := string.

(** One reading of [datetime.now()]. *)
Record datetime := DateTime {
  year : N; month : N; day : N; hour : N; minute : N; second : N
}.

(** The exceptions the modelled code can meet. *)
Inductive exn :=
| FileNotFoundError
| PermissionError
| SameFileError
| InvalidToken
| JSONDecodeError
| UnicodeDecodeError
| UnicodeEncodeError
| ValueError
| AttributeError.

(** A regular file: contents and permission bits.  The process is the
    owner and is not privileged, so only the owner bits matter. *)
Record file := File { f_data : bytes; f_mode : N }.

Definition S_IRUSR : N := 256. (* 0o400 *)
Definition S_IWUSR : N := 128. (* 0o200 *)
Definition mode_600 : N := 384. (* 0o600 *)
Definition mode_default : N := 420. (* 0o644: 0o666 under umask 022 *)

Definition readable (f : file) : bool := N.testbit (f_mode f) 8.
Definition writable (f : file) : bool := N.testbit (f_mode f) 7.

(** File-system effects, logged in the order they happen. *)
Inductive event :=
| EvWrite (p : path) (data : bytes)
| EvChmod (p : path) (mode : N)
| EvCopy (src dst : path).

(** ** The [cryptography] package

    Fernet and PBKDF2 are taken as an interface.  [fernet_key_ok] is the
    test [Fernet(key)] performs on its argument; [fernet_generate_key]
    makes a key out of 32 bytes of entropy; encryption reads the clock and
    16 bytes of entropy; decryption (no [ttl]) is a partial function of
    key and token; [pbkdf2_hmac_sha256 length salt iterations] is
    [PBKDF2HMAC(SHA256(), length, salt, iterations).derive].  The two laws
    are the package's contract: a generated key is accepted, and a token
    decrypts under the key that made it. *)
Class Cryptography := {
  fernet_key_ok : bytes -> bool;
  fernet_generate_key : bytes -> bytes;
  fernet_encrypt : bytes -> datetime -> bytes -> bytes -> bytes;
  fernet_decrypt : bytes -> bytes -> option bytes;
  pbkdf2_hmac_sha256 : N -> bytes -> N -> bytes -> bytes;
  fernet_generate_key_ok :
    forall r, length r = 32%nat -> fernet_key_ok (fernet_generate_key r) = true;
  fernet_decrypt_encrypt :
    forall k now iv m,
      fernet_key_ok k = true -> length iv = 16%nat ->
      fernet_decrypt k (fernet_encrypt k now iv m) = Some m
}.

(** ** State *)

(** The fields of a [VaultEncryptor] instance; [cipher] holds the key of
    the [Fernet] object, [None] before initialisation. *)
Record VaultEncryptor := mkVaultEncryptor {
  key_file : path;
  data_file : path;
  cipher : option bytes
}.

Record state := mkState {
  self : VaultEncryptor;
  fs : gmap string file;
  clock : datetime;
  entropy : nat -> N;
  cursor : nat;
  trace : list event
}.

Definition set_cipher (c : option bytes) (s : state) : state :=
  mkState (mkVaultEncryptor (key_file (self s)) (data_file (self s)) c)
          (fs s) (clock s) (entropy s) (cursor s) (trace s).

Definition set_fs (m : gmap string file) (ev : event) (s : state) : state :=
  mkState (self s) m (clock s) (entropy s) (cursor s) (trace s ++ [ev]).

Definition set_cursor (c : nat) (s : state) : state :=
  mkState (self s) (fs s) (clock s) (entropy s) c (trace s).

(** ** Computations that may raise *)

Inductive result (A : Type) :=
| Ok (a : A)
| Raise (e : exn).
Arguments Ok {A} a.
Arguments Raise {A} e.

Definition M (A : Type) : Type := state -> result A * state.

Definition ret {A} (a : A) : M A := fun s => (Ok a, s).
Definition raise {A} (e : exn) : M A := fun s => (Raise e, s).
Definition bind {A B} (m : M A) (k : A -> M B) : M B :=
  fun s => match m s with
           | (Ok a, s') => k a s'
           | (Raise e, s') => (Raise e, s')
           end.
Definition try_except {A} (m : M A) (handler : exn -> M A) : M A :=
  fun s => match m s with
           | (Ok a, s') => (Ok a, s')
           | (Raise e, s') => handler e s'
           end.
Definition get {A} (f : state -> A) : M A := fun s => (Ok (f s), s).
Definition lift {A} (r : result A) : M A := fun s => (r, s).
Definition modify (f : state -> state) : M unit := fun s => (Ok tt, f s).

#[export] Instance M_ret : MRet M := @ret.
#[export] Instance M_bind : MBind M := fun A B k m => bind m k.

(** ** Operating-system calls *)

(** [os.path.exists(p)] *)
Definition os_path_exists (p : path) : M bool :=
  get (fun s => bool_decide (is_Some (fs s !! p))).

(** [with open(p, 'rb') as f: f.read()] *)
Definition read_file (p : path) : M bytes :=
  fun s => match fs s !! p with
           | None => (Raise FileNotFoundError, s)
           | Some f => if readable f then (Ok (f_data f), s)
                       else (Raise PermissionError, s)
           end.

(** [with open(p, 'wb') as f: f.write(data)]: creates the file, or
    truncates an existing one the owner may write. *)
Definition write_file (p : path) (data : bytes) : M unit :=
  fun s => match fs s !! p with
           | None =>
               (Ok tt, set_fs (<[p := File data mode_default]> (fs s))
                              (EvWrite p data) s)
           | Some f =>
               if writable f
               then (Ok tt, set_fs (<[p := File data (f_mode f)]> (fs s))
                                   (EvWrite p data) s)
               else (Raise PermissionError, s)
           end.

(** [os.chmod(p, mode)] *)
Definition os_chmod (p : path) (mode : N) : M unit :=
  fun s => match fs s !! p with
           | None => (Raise FileNotFoundError, s)
           | Some f => (Ok tt, set_fs (<[p := File (f_data f) mode]> (fs s))
                                      (EvChmod p mode) s)
           end.

(** [shutil.copy2(src, dst)]: contents and permission bits. *)
Definition shutil_copy2 (src dst : path) : M unit :=
  fun s => match fs s !! src with
           | None => (Raise FileNotFoundError, s)
           | Some f =>
               if bool_decide (src = dst) then (Raise SameFileError, s)
               else if negb (readable f) then (Raise PermissionError, s)
               else match fs s !! dst with
                    | Some g =>
                        if writable g
                        then (Ok tt, set_fs (<[dst := f]> (fs s))
                                            (EvCopy src dst) s)
                        else (Raise PermissionError, s)
                    | None => (Ok tt, set_fs (<[dst := f]> (fs s))
                                             (EvCopy src dst) s)
                    end
           end.

(** [os.urandom(n)] *)
Definition os_urandom (n : nat) : M bytes :=
  fun s => (Ok (map (entropy s) (seq (cursor s) n)),
            set_cursor (cursor s + n)%nat s).

(** [datetime.now()] *)
Definition datetime_now : M datetime := get clock.

(** ** Text: literals, UTF-8, JSON

    [json.dumps], [json.loads], [str.encode] and [bytes.decode] are the
    standard library's; they are written out here for the values the
    vault can hold. *)

Definition lit (s : string) : str :=
  map N_of_ascii (list_ascii_of_string s).

Definition DQUOTE : N := 34.
Definition BACKSLASH : N := 92.

Definition is_high_surrogate (c : N) : bool := (55296 <=? c) && (c <=? 56319).
Definition is_low_surrogate (c : N) : bool := (56320 <=? c) && (c <=? 57343).
Definition is_surrogate (c : N) : bool := (55296 <=? c) && (c <=? 57343).

(** *** [str.encode()] and [bytes.decode()] (UTF-8, strict) *)

Definition utf8_encode_char (c : N) : option bytes :=
  if c <? 128 then Some [c]
  else if c <? 2048 then Some [192 + c / 64; 128 + c mod 64]
  else if c <? 65536 then
    if is_surrogate c then None
    else Some [224 + c / 4096; 128 + (c / 64) mod 64; 128 + c mod 64]
  else if c <? 1114112 then
    Some [240 + c / 262144; 128 + (c / 4096) mod 64;
          128 + (c / 64) mod 64; 128 + c mod 64]
  else None.

Fixpoint utf8_encode (s : str) : result bytes :=
  match s with
  | [] => Ok []
  | c :: r =>
      match utf8_encode_char c, utf8_encode r with
      | Some b, Ok br => Ok (b ++ br)
      | _, _ => Raise UnicodeEncodeError
      end
  end.

Definition is_cont (b : N) : bool := (128 <=? b) && (b <? 192).

Fixpoint utf8_decode (b : bytes) : result str :=
  let push c r := match r with Ok s => Ok (c :: s) | Raise e => Raise e end in
  match b with
  | [] => Ok []
  | b0 :: r0 =>
      if b0 <? 128 then push b0 (utf8_decode r0)
      else if (194 <=? b0) && (b0 <? 224) then
        match r0 with
        | b1 :: r1 =>
            if is_cont b1
            then push ((b0 - 192) * 64 + (b1 - 128)) (utf8_decode r1)
            else Raise UnicodeDecodeError
        | _ => Raise UnicodeDecodeError
        end
      else if (224 <=? b0) && (b0 <? 240) then
        match r0 with
        | b1 :: b2 :: r2 =>
            let c := (b0 - 224) * 4096 + (b1 - 128) * 64 + (b2 - 128) in
            if is_cont b1 && is_cont b2 && (2048 <=? c) && negb (is_surrogate c)
            then push c (utf8_decode r2)
            else Raise UnicodeDecodeError
        | _ => Raise UnicodeDecodeError
        end
      else if (240 <=? b0) && (b0 <? 245) then
        match r0 with
        | b1 :: b2 :: b3 :: r3 =>
            let c := (b0 - 240) * 262144 + (b1 - 128) * 4096
                     + (b2 - 128) * 64 + (b3 - 128) in
            if is_cont b1 && is_cont b2 && is_cont b3
               && (65536 <=? c) && (c <? 1114112)
            then push c (utf8_decode r3)
            else Raise UnicodeDecodeError
        | _ => Raise UnicodeDecodeError
        end
      else Raise UnicodeDecodeError
  end.

(** *** JSON values

    What [json.loads] can return.  A float is kept as the literal it was
    read from. *)
#[warnings="-register-all"] Inductive json :=
| JNull
| JBool (b : bool)
| JInt (z : Z)
| JFloat (literal : str)
| JStr (s : str)
| JArr (items : list json)
| JObj (members : list (str * json)).

Definition str_eqb (a b : str) : bool := bool_decide (a = b).

(** [d[key] = v] on a dict kept in insertion order. *)
Fixpoint dict_set (d : list (str * json)) (key : str) (v : json)
  : list (str * json) :=
  match d with
  | [] => [(key, v)]
  | (k, x) :: r =>
      if str_eqb k key then (k, v) :: r else (k, x) :: dict_set r key v
  end.

(** *** [json.dumps(data, indent=2)] *)

Definition hex_digit (d : N) : N := if d <? 10 then 48 + d else 87 + d.

(** ['\\u{0:04x}'.format(n)] *)
Definition u_escape (n : N) : str :=
  [BACKSLASH; 117; hex_digit (n / 4096); hex_digit ((n / 256) mod 16);
   hex_digit ((n / 16) mod 16); hex_digit (n mod 16)].

(** One character of [py_encode_basestring_ascii]. *)
Definition escape_char (c : N) : str :=
  if c =? DQUOTE then [BACKSLASH; DQUOTE]
  else if c =? BACKSLASH then [BACKSLASH; BACKSLASH]
  else if c =? 10 then [BACKSLASH; 110]
  else if c =? 13 then [BACKSLASH; 114]
  else if c =? 9 then [BACKSLASH; 116]
  else if c =? 12 then [BACKSLASH; 102]
  else if c =? 8 then [BACKSLASH; 98]
  else if (32 <=? c) && (c <=? 126) then [c]
  else if c <? 65536 then u_escape c
  else
    let n := c - 65536 in
    u_escape (55296 + (n / 1024) mod 1024) ++ u_escape (56320 + n mod 1024).

Definition encode_basestring_ascii (s : str) : str :=
  DQUOTE :: flat_map escape_char s ++ [DQUOTE].

Fixpoint uint_digits (u : Decimal.uint) : str :=
  match u with
  | Decimal.Nil => []
  | Decimal.D0 r => 48 :: uint_digits r
  | Decimal.D1 r => 49 :: uint_digits r
  | Decimal.D2 r => 50 :: uint_digits r
  | Decimal.D3 r => 51 :: uint_digits r
  | Decimal.D4 r => 52 :: uint_digits r
  | Decimal.D5 r => 53 :: uint_digits r
  | Decimal.D6 r => 54 :: uint_digits r
  | Decimal.D7 r => 55 :: uint_digits r
  | Decimal.D8 r => 56 :: uint_digits r
  | Decimal.D9 r => 57 :: uint_digits r
  end.

(** [int.__repr__] *)
Definition int_repr (z : Z) : str :=
  match z with
  | Z0 => [48]
  | Zpos p => uint_digits (Pos.to_uint p)
  | Zneg p => 45 :: uint_digits (Pos.to_uint p)
  end.

Definition newline_indent (level : nat) : str :=
  10 :: repeat 32 (2 * level)%nat.

Fixpoint iterencode (level : nat) (v : json) : str :=
  match v with
  | JNull => lit "null"
  | JBool true => lit "true"
  | JBool false => lit "false"
  | JInt z => int_repr z
  | JFloat l => l
  | JStr s => encode_basestring_ascii s
  | JArr [] => lit "[]"
  | JArr (x :: xs) =>
      lit "[" ++ newline_indent (S level) ++ iterencode (S level) x
      ++ (fix rest (l : list json) : str :=
            match l with
            | [] => []
            | y :: ys =>
                lit "," ++ newline_indent (S level)
                ++ iterencode (S level) y ++ rest ys
            end) xs
      ++ newline_indent level ++ lit "]"
  | JObj [] => lit "{}"
  | JObj ((k, x) :: xs) =>
      lit "{" ++ newline_indent (S level)
      ++ encode_basestring_ascii k ++ lit ": " ++ iterencode (S level) x
      ++ (fix rest (l : list (str * json)) : str :=
            match l with
            | [] => []
            | (k', y) :: ys =>
                lit "," ++ newline_indent (S level)
                ++ encode_basestring_ascii k' ++ lit ": "
                ++ iterencode (S level) y ++ rest ys
            end) xs
      ++ newline_indent level ++ lit "}"
  end.

Definition json_dumps (v : json) : str := iterencode 0 v.

(** *** [json.loads] *)

Definition is_ws (c : N) : bool :=
  (c =? 32) || (c =? 9) || (c =? 10) || (c =? 13).

Fixpoint skip_ws (s : str) : str :=
  match s with
  | c :: r => if is_ws c then skip_ws r else s
  | [] => []
  end.

Definition hex_value (c : N) : option N :=
  if (48 <=? c) && (c <=? 57) then Some (c - 48)
  else if (97 <=? c) && (c <=? 102) then Some (c - 87)
  else if (65 <=? c) && (c <=? 70) then Some (c - 55)
  else None.

(** [_decode_uXXXX]: exactly four hexadecimal digits. *)
Definition decode_uXXXX (a b c d : N) : option N :=
  match hex_value a, hex_value b, hex_value c, hex_value d with
  | Some x, Some y, Some z, Some w => Some (x * 4096 + y * 256 + z * 16 + w)
  | _, _, _, _ => None
  end.

(** The [BACKSLASH] table of the decoder. *)
Definition unescape (e : N) : option N :=
  if e =? DQUOTE then Some DQUOTE
  else if e =? BACKSLASH then Some BACKSLASH
  else if e =? 47 then Some 47
  else if e =? 98 then Some 8
  else if e =? 102 then Some 12
  else if e =? 110 then Some 10
  else if e =? 114 then Some 13
  else if e =? 116 then Some 9
  else None.

Definition push_char {R} (c : N) (o : option (str * R)) : option (str * R) :=
  match o with
  | Some (s, r) => Some (c :: s, r)
  | None => None
  end.

(** [scanstring] in strict mode, started just after the opening quote:
    the decoded string and the input after the closing quote. *)
Fixpoint scanstring (s : str) : option (str * str) :=
  match s with
  | [] => None
  | c :: r =>
      if c =? DQUOTE then Some ([], r)
      else if c =? BACKSLASH then
        match r with
        | [] => None
        | e :: r1 =>
            if e =? 117 then
              match r1 with
              | h1 :: h2 :: h3 :: h4 :: r2 =>
                  match decode_uXXXX h1 h2 h3 h4 with
                  | None => None
                  | Some uni =>
                      match r2 with
                      | b :: u :: r3 =>
                          if is_high_surrogate uni && (b =? BACKSLASH)
                             && (u =? 117)
                          then
                            match r3 with
                            | g1 :: g2 :: g3 :: g4 :: r4 =>
                                match decode_uXXXX g1 g2 g3 g4 with
                                | None => None
                                | Some uni2 =>
                                    if is_low_surrogate uni2
                                    then push_char
                                           (65536 + ((uni - 55296) * 1024
                                                     + (uni2 - 56320)))
                                           (scanstring r4)
                                    else push_char uni (scanstring r2)
                                end
                            | _ => None
                            end
                          else push_char uni (scanstring r2)
                      | _ => push_char uni (scanstring r2)
                      end
                  end
              | _ => None
              end
            else
              match unescape e with
              | Some ch => push_char ch (scanstring r1)
              | None => None
              end
        end
      else if c <? 32 then None
      else push_char c (scanstring r)
  end.

Definition is_digit (c : N) : bool := (48 <=? c) && (c <=? 57).

Fixpoint span_digits (s : str) : str * str :=
  match s with
  | c :: r => if is_digit c
              then let (d, r') := span_digits r in (c :: d, r')
              else ([], s)
  | [] => ([], [])
  end.

Definition digits_value (d : str) : Z :=
  fold_left (fun acc c => (acc * 10 + Z.of_N (c - 48))%Z) d 0%Z.

(** The integer part of [NUMBER_RE]: an optional minus sign, then a
    single zero or a digit string that does not start with zero. *)
Definition match_integer (s : str) : option (str * str) :=
  let body (t : str) :=
    match t with
    | c :: r =>
        if c =? 48 then Some ([c], r)
        else if is_digit c then let (d, r') := span_digits r in Some (c :: d, r')
        else None
    | [] => None
    end in
  match s with
  | c :: r => if c =? 45 then push_char c (body r) else body s
  | [] => None
  end.

(** The optional fraction of [NUMBER_RE]: a dot and at least one digit. *)
Definition match_frac (s : str) : str * str :=
  match s with
  | c :: r =>
      if c =? 46 then
        match span_digits r with
        | ([], _) => ([], s)
        | (d, r') => (c :: d, r')
        end
      else ([], s)
  | [] => ([], [])
  end.

(** The optional exponent of [NUMBER_RE]: e or E, an optional sign, and
    at least one digit. *)
Definition match_exp (s : str) : str * str :=
  match s with
  | c :: r =>
      if (c =? 101) || (c =? 69) then
        let (sign, r1) :=
          match r with
          | g :: r1 => if (g =? 45) || (g =? 43) then ([g], r1) else ([], r)
          | [] => ([], r)
          end in
        match span_digits r1 with
        | ([], _) => ([], s)
        | (d, r') => (c :: sign ++ d, r')
        end
      else ([], s)
  | [] => ([], [])
  end.

Definition match_number (s : str) : option (json * str) :=
  match match_integer s with
  | None => None
  | Some (i, r) =>
      let (f, r1) := match_frac r in
      let (e, r2) := match_exp r1 in
      match f, e with
      | [], [] =>
          Some (JInt (match i with
                      | c :: d => if c =? 45 then (- digits_value d)%Z
                                  else digits_value i
                      | [] => 0%Z
                      end), r2)
      | _, _ => Some (JFloat (i ++ f ++ e), r2)
      end
  end.

Fixpoint strip_prefix (p s : str) : option str :=
  match p, s with
  | [], _ => Some s
  | a :: p', b :: s' => if a =? b then strip_prefix p' s' else None
  | _ :: _, [] => None
  end.

Definition match_constant (s : str) : option (json * str) :=
  match strip_prefix (lit "NaN") s with
  | Some r => Some (JFloat (lit "NaN"), r)
  | None =>
  match strip_prefix (lit "Infinity") s with
  | Some r => Some (JFloat (lit "Infinity"), r)
  | None =>
  match strip_prefix (lit "-Infinity") s with
  | Some r => Some (JFloat (lit "-Infinity"), r)
  | None => None
  end end end.

(** [scan_once], [JSONObject] and [JSONArray]; [fuel] bounds the
    recursion, one unit per value, member or item. *)
Fixpoint scan_once (fuel : nat) (s : str) : option (json * str) :=
  match fuel with
  | O => None
  | S fuel' =>
      match s with
      | [] => None
      | c :: r =>
          if c =? DQUOTE then
            match scanstring r with
            | Some (v, r') => Some (JStr v, r')
            | None => None
            end
          else if c =? 123 then
            match skip_ws r with
            | d :: r1 =>
                if d =? 125 then Some (JObj [], r1)
                else if d =? DQUOTE then JSONObject fuel' [] r1
                else None
            | [] => None
            end
          else if c =? 91 then
            match skip_ws r with
            | d :: r1 =>
                if d =? 93 then Some (JArr [], r1)
                else JSONArray fuel' [] (d :: r1)
            | [] => None
            end
          else
            match strip_prefix (lit "null") s with
            | Some r' => Some (JNull, r')
            | None =>
            match strip_prefix (lit "true") s with
            | Some r' => Some (JBool true, r')
            | None =>
            match strip_prefix (lit "false") s with
            | Some r' => Some (JBool false, r')
            | None =>
            match match_number s with
            | Some res => Some res
            | None => match_constant s
            end end end end
      end
  end
with JSONObject (fuel : nat) (pairs : list (str * json)) (s : str)
  : option (json * str) :=
  match fuel with
  | O => None
  | S fuel' =>
      match scanstring s with
      | None => None
      | Some (key, r) =>
          match skip_ws r with
          | c :: r1 =>
              if c =? 58 then
                match scan_once fuel' (skip_ws r1) with
                | None => None
                | Some (v, r2) =>
                    match skip_ws r2 with
                    | d :: r3 =>
                        if d =? 125
                        then Some (JObj (dict_set pairs key v), r3)
                        else if d =? 44 then
                          match skip_ws r3 with
                          | q :: r4 =>
                              if q =? DQUOTE
                              then JSONObject fuel' (dict_set pairs key v) r4
                              else None
                          | [] => None
                          end
                        else None
                    | [] => None
                    end
                end
              else None
          | [] => None
          end
      end
  end
with JSONArray (fuel : nat) (values : list json) (s : str)
  : option (json * str) :=
  match fuel with
  | O => None
  | S fuel' =>
      match scan_once fuel' s with
      | None => None
      | Some (v, r) =>
          match skip_ws r with
          | d :: r1 =>
              if d =? 93 then Some (JArr (values ++ [v]), r1)
              else if d =? 44 then JSONArray fuel' (values ++ [v]) (skip_ws r1)
              else None
          | [] => None
          end
      end
  end.

(** [json.loads(s)]: one value, surrounded by white space only.  Of any
    two nested calls at least one consumes a character first, so two
    units of fuel per character are never used up.  (The interpreter's
    recursion limit is not modelled.) *)
Definition json_loads (s : str) : result json :=
  match scan_once (S (2 * length s)) (skip_ws s) with
  | Some (v, r) =>
      match skip_ws r with
      | [] => Ok v
      | _ :: _ => Raise JSONDecodeError
      end
  | None => Raise JSONDecodeError
  end.

(** Test inputs are written with an apostrophe for each double quote. *)
Definition dq (s : string) : str :=
  map (fun c => if c =? 39 then DQUOTE else c) (lit s).

(** *** [base64.urlsafe_b64encode] *)

Definition b64_char (v : N) : N :=
  if v <? 26 then 65 + v
  else if v <? 52 then 71 + v
  else if v <? 62 then v - 4
  else if v =? 62 then 45
  else 95.

Fixpoint urlsafe_b64encode (b : bytes) : bytes :=
  match b with
  | [] => []
  | [x] => [b64_char (x / 4); b64_char ((x mod 4) * 16); 61; 61]
  | [x; y] =>
      [b64_char (x / 4); b64_char ((x mod 4) * 16 + y / 16);
       b64_char ((y mod 16) * 4); 61]
  | x :: y :: z :: r =>
      b64_char (x / 4) :: b64_char ((x mod 4) * 16 + y / 16)
      :: b64_char ((y mod 16) * 4 + z / 64) :: b64_char (z mod 64)
      :: urlsafe_b64encode r
  end.

(** *** [datetime.strftime] *)

Definition zero_pad (width : nat) (n : N) : string :=
  let d := NilZero.string_of_uint (N.to_uint n) in
  String.append
    (string_of_list_ascii (repeat "0"%char (width - String.length d)%nat)) d.

(** [dt.strftime('%Y%m%d_%H%M%S')] *)
Definition strftime_Ymd_HMS (dt : datetime) : string :=
  String.append (zero_pad 4 (year dt))
  (String.append (zero_pad 2 (month dt))
  (String.append (zero_pad 2 (day dt))
  (String.append "_"
  (String.append (zero_pad 2 (hour dt))
  (String.append (zero_pad 2 (minute dt)) (zero_pad 2 (second dt))))))).

(** ** class VaultEncryptor *)

Section VaultEncryptor.
Context `{Cryptography}.

(** The record [load_data] falls back to. *)
Definition empty_record : json :=
  JObj [(lit "notes", JStr []); (lit "last_modified", JStr [])].

(** [Fernet(key)] *)
Definition Fernet (key : bytes) : M bytes :=
  if fernet_key_ok key then mret key else raise ValueError.

(** The attribute [self.cipher], as a method call sees it: calling a
    method of [None] raises. *)
Definition self_cipher : M bytes :=
  c ← get (fun s => cipher (self s));
  match c with
  | Some k => mret k
  | None => raise AttributeError
  end.

Definition generate_key : M bytes :=
  r ← os_urandom 32;
  mret (fernet_generate_key r).

Definition derive_key_from_password (password : str) (salt : option bytes)
  : M (bytes * bytes) :=
  salt ← match salt with
         | None => os_urandom 16
         | Some s => mret s
         end;
  pw ← lift (utf8_encode password);
  let key := urlsafe_b64encode (pbkdf2_hmac_sha256 32 salt 100000 pw) in
  mret (key, salt).

Definition save_key (key : bytes) : M unit :=
  try_except
    (kf ← get (fun s => key_file (self s));
     write_file kf key;;
     os_chmod kf mode_600)
    (fun e => raise e).

Definition load_key : M (option bytes) :=
  try_except
    (kf ← get (fun s => key_file (self s));
     ex ← os_path_exists kf;
     if negb ex then mret None
     else key ← read_file kf; mret (Some key))
    (fun _ => mret None).

Definition load_or_generate_key : M unit :=
  try_except
    (key ← load_key;
     key ← match key with
           | None => k ← generate_key; save_key k;; mret k
           | Some k => mret k
           end;
     c ← Fernet key;
     modify (set_cipher (Some c)))
    (fun e => raise e).

(** [VaultEncryptor(key_file, data_file)] *)
Definition VaultEncryptor_init (kf df : path) : M unit :=
  modify (fun s => mkState (mkVaultEncryptor kf df None) (fs s) (clock s)
                           (entropy s) (cursor s) (trace s));;
  load_or_generate_key.

(** [self.cipher.encrypt(data)]: the token is stamped with the current
    time and a fresh 16-byte IV. *)
Definition cipher_encrypt (k : bytes) (data : bytes) : M bytes :=
  now ← datetime_now;
  iv ← os_urandom 16;
  mret (fernet_encrypt k now iv data).

Definition cipher_decrypt (k : bytes) (token : bytes) : M bytes :=
  match fernet_decrypt k token with
  | Some m => mret m
  | None => raise InvalidToken
  end.

Definition encrypt_data (data : json) : M bytes :=
  try_except
    (let json_data := json_dumps data in
     k ← self_cipher;
     plain ← lift (utf8_encode json_data);
     cipher_encrypt k plain)
    (fun e => raise e).

Definition decrypt_data (encrypted_data : bytes) : M json :=
  try_except
    (k ← self_cipher;
     decrypted_data ← cipher_decrypt k encrypted_data;
     json_data ← lift (utf8_decode decrypted_data);
     lift (json_loads json_data))
    (fun e => raise e).

Definition save_data (data : json) : M unit :=
  try_except
    (encrypted_data ← encrypt_data data;
     df ← get (fun s => data_file (self s));
     write_file df encrypted_data;;
     os_chmod df mode_600)
    (fun e => raise e).

Definition load_data : M json :=
  try_except
    (df ← get (fun s => data_file (self s));
     ex ← os_path_exists df;
     if negb ex then mret empty_record
     else
       encrypted_data ← read_file df;
       decrypt_data encrypted_data)
    (fun _ => mret empty_record).

Definition backup_data (backup_file : option path) : M bool :=
  try_except
    (df ← get (fun s => data_file (self s));
     ex ← os_path_exists df;
     if negb ex then mret false
     else
       backup_file ← match backup_file with
                     | None =>
                         now ← datetime_now;
                         let timestamp := strftime_Ymd_HMS now in
                         mret (String.append df
                                 (String.append ".backup_" timestamp))
                     | Some b => mret b
                     end;
       shutil_copy2 df backup_file;;
       mret true)
    (fun _ => mret false).

Definition restore_data (backup_file : path) : M bool :=
  try_except
    (ex ← os_path_exists backup_file;
     if negb ex then mret false
     else
       encrypted_data ← read_file backup_file;
       decrypt_data encrypted_data;;
       df ← get (fun s => data_file (self s));
       shutil_copy2 backup_file df;;
       mret true)
    (fun _ => mret false).

Definition change_encryption_key (new_key : option bytes) : M bool :=
  try_except
    (existing_data ← load_data;
     backup_data None;;
     new_key ← match new_key with
               | None => generate_key
               | Some k => mret k
               end;
     c ← Fernet new_key;
     modify (set_cipher (Some c));;
     save_key new_key;;
     save_data existing_data;;
     mret true)
    (fun _ => mret false).

End VaultEncryptor.

(** ** class FaceAuthenticator

    The camera and the [face_recognition] package are outside the model.
    An encoding is a vector of numbers; [norm_diff known e] stands for
    [np.linalg.norm(known - e)], one entry of what [face_distance]
    returns, and [dist_le d tol] for the comparison [d <= tol].  Times and
    the tolerance are exact rationals, and the calls into the camera and
    the package are taken not to raise. *)

Definition encoding := list Q.

Record FaceAuthenticator := mkFaceAuthenticator {
  known_face_encodings : list encoding;
  tolerance : Q;
  max_attempts : nat;
  timeout_seconds : Q
}.

(** What one pass of the capture loop reads from the outside: the clock,
    and from the camera either nothing ([ret] false) or a frame, given by
    what [detect_and_encode_face] returns for it: [None] for
    [(False, None)], [Some encs] for [(True, encs)]. *)
Record tick := mkTick {
  now : Q;
  frame : option (option (list encoding))
}.

(** The local variables of [authenticate]. *)
Record session := mkSession {
  attempts : nat;
  consecutive_matches : nat
}.

(** How one pass through the loop body ends. *)
Inductive pass :=
| Return (r : bool * string)
| Break (st : session)
| Next (st : session).

Definition Qlt_bool (a b : Q) : bool := negb (Qle_bool b a).

Section FaceAuthenticator.
Variable Dist : Type.
Variable norm_diff : encoding -> encoding -> Dist.
Variable dist_le : Dist -> Q -> bool.

(** [face_recognition.face_distance(known, e)] *)
Definition face_distance (known : list encoding) (e : encoding) : list Dist :=
  map (fun k => norm_diff k e) known.

(** The [for] loop of [verify_face]. *)
Fixpoint verify_each (fa : FaceAuthenticator) (face_encodings : list encoding)
  : bool :=
  match face_encodings with
  | [] => false
  | face_encoding :: rest =>
      let face_distances := face_distance (known_face_encodings fa)
                                          face_encoding in
      let matches := map (fun d => dist_le d (tolerance fa)) face_distances in
      if existsb id matches then true else verify_each fa rest
  end.

(** [verify_face(face_encodings)]; the argument may be [None]. *)
Definition verify_face (fa : FaceAuthenticator)
  (face_encodings : option (list encoding)) : bool :=
  match known_face_encodings fa, face_encodings with
  | [], _ => false
  | _, None => false
  | _, Some [] => false
  | _, Some encs => verify_each fa encs
  end.

Definition required_matches : nat := 3.

(** The body of the [while] loop of [authenticate]. *)
Definition loop_body (fa : FaceAuthenticator) (start_time : Q)
  (st : session) (tk : tick) : pass :=
  if Qlt_bool (timeout_seconds fa) (now tk - start_time) then Break st
  else
    match frame tk with
    | None => Next st
    | Some (Some face_encodings) =>
        if verify_face fa (Some face_encodings) then
          let c := S (consecutive_matches st) in
          if (required_matches <=? c)%nat
          then Return (true, "Authentication successful"%string)
          else Next (mkSession (attempts st) c)
        else Next (mkSession (S (attempts st)) 0)
    | Some None => Next (mkSession (attempts st) 0)
    end.

(** What follows the loop. *)
Definition after_loop (fa : FaceAuthenticator) (st : session)
  : bool * string :=
  if (max_attempts fa <=? attempts st)%nat
  then (false, "Authentication failed: Maximum attempts exceeded"%string)
  else (false, "Authentication failed: Timeout"%string).

(** The [while attempts < self.max_attempts] loop, run on the ticks the
    outside supplies; [None] when they end before the loop does. *)
Fixpoint while_loop (fa : FaceAuthenticator) (start_time : Q) (st : session)
  (ticks : list tick) : option (bool * string) :=
  if (attempts st <? max_attempts fa)%nat then
    match ticks with
    | [] => None
    | tk :: rest =>
        match loop_body fa start_time st tk with
        | Return r => Some r
        | Break st' => Some (after_loop fa st')
        | Next st' => while_loop fa start_time st' rest
        end
    end
  else Some (after_loop fa st).

(** [authenticate()]: [camera] is [cap.isOpened()], [start_time] the
    first clock reading. *)
Definition authenticate (fa : FaceAuthenticator) (camera : bool)
  (start_time : Q) (ticks : list tick) : option (bool * string) :=
  match known_face_encodings fa with
  | [] => Some (false,
                "No reference face found. Please setup face first."%string)
  | _ =>
      if negb camera then Some (false, "Cannot access camera"%string)
      else while_loop fa start_time (mkSession 0 0) ticks
  end.

End FaceAuthenticator.

(** [FaceAuthenticator.__init__]'s settings around a reference set. *)
Definition FaceAuthenticator_init (known : list encoding) : FaceAuthenticator :=
  mkFaceAuthenticator known (6 # 10) 3 10.

(** Exact Euclidean geometry over the rationals: the distance is kept
    squared, and [sqrt d2 <= tol] is decided without taking the root. *)
Fixpoint sq_dist (a b : encoding) : Q :=
  match a, b with
  | x :: a', y :: b' => ((x - y) * (x - y) + sq_dist a' b')%Q
  | _, _ => 0%Q
  end.

Definition sqrt_le (d2 tol : Q) : bool :=
  Qle_bool 0 tol && Qle_bool d2 (tol * tol).

(** The authenticator over exact Euclidean geometry. *)
Definition euclid_verify_face := verify_face Q sq_dist sqrt_le.
Definition euclid_authenticate := authenticate Q sq_dist sqrt_le.

(** Frames for the scenarios: enrolled at the origin of the plane, a face
    at distance 0.3, a face at distance 5, and no face. *)
Definition enrolled : FaceAuthenticator := FaceAuthenticator_init [[0; 0]%Q].
Definition MATCH (t : Q) : tick := mkTick t (Some (Some [[3 # 10; 0]%Q])).
Definition MISMATCH (t : Q) : tick := mkTick t (Some (Some [[3; 4]%Q])).
Definition NO_FACE (t : Q) : tick := mkTick t (Some None).

(** ** A runnable stand-in for the [cryptography] package

    It keeps nothing secret; it obeys the laws of the interface, rejects
    what it did not produce, and lets the model run on concrete files. *)

Definition toy_key_ok (k : bytes) : bool := (length k =? 44)%nat.

Definition toy_encrypt (k : bytes) (t : datetime) (iv m : bytes) : bytes :=
  k ++ iv ++ m.

Definition toy_decrypt (k token : bytes) : option bytes :=
  match strip_prefix k token with
  | Some r => if (16 <=? length r)%nat then Some (drop 16 r) else None
  | None => None
  end.

Definition toy_pbkdf2 (len : N) (salt : bytes) (iterations : N) (pw : bytes)
  : bytes :=
  take (N.to_nat len) (salt ++ pw ++ repeat 0 (N.to_nat len)).

Definition toy_cryptography : Cryptography.
Proof.
  refine {| fernet_key_ok := toy_key_ok;
            fernet_generate_key := urlsafe_b64encode;
            fernet_encrypt := toy_encrypt;
            fernet_decrypt := toy_decrypt;
            pbkdf2_hmac_sha256 := toy_pbkdf2 |}.
  - intros r Hr. unfold toy_key_ok.
    do 33 (destruct r as [|? r]; try discriminate Hr).
    reflexivity.
  - intros k t iv m _ Hiv. unfold toy_decrypt, toy_encrypt.
    assert (Hstrip : forall p s : str, strip_prefix p (p ++ s) = Some s).
    { induction p as [|a p IH]; intros s; simpl; [reflexivity|].
      now rewrite N.eqb_refl. }
    rewrite Hstrip.
    rewrite length_app, Hiv. simpl.
    rewrite drop_app_length'; [reflexivity | symmetry; exact Hiv].
Defined.

(** ** Vault records and sample states *)

(** A [VaultRecord]: the two fields the application stores. *)
Definition vault_record (notes last_modified : str) : json :=
  JObj [(lit "notes", JStr notes); (lit "last_modified", JStr last_modified)].

(** Text proper: Unicode scalar values, that is code points below
    0x110000 that are not surrogates. *)
Definition scalar_value (c : N) : bool :=
  (c <? 1114112) && negb (is_surrogate c).

Definition valid_text (s : str) : bool := forallb scalar_value s.

Definition is_ascii (c : N) : bool := c <? 128.

(** The backup name as the specification words it: the original path,
    [.backup_], and fourteen digits. *)
Fixpoint string_strip_prefix (p s : string) : option string :=
  match p, s with
  | EmptyString, _ => Some s
  | String a p', String b s' =>
      if Ascii.eqb a b then string_strip_prefix p' s' else None
  | String _ _, EmptyString => None
  end.

Definition all_digits (s : string) : bool :=
  forallb (fun a => is_digit (N_of_ascii a)) (list_ascii_of_string s).

Definition spec_backup_name (original p : string) : bool :=
  match string_strip_prefix (String.append original ".backup_") p with
  | Some ts => (String.length ts =? 14)%nat && all_digits ts
  | None => false
  end.

(** The backup name as [backup_data] builds it: the original path,
    [.backup_], eight digits, an underscore, six digits. *)
Definition code_backup_name (original p : string) : bool :=
  match string_strip_prefix (String.append original ".backup_") p with
  | Some ts =>
      (String.length ts =? 15)%nat
      && all_digits (substring 0 8 ts)
      && String.eqb (substring 8 1 ts) "_"
      && all_digits (substring 9 6 ts)
  | None => false
  end.

(** A plausible clock reading: a four-digit year and two-digit fields. *)
Definition datetime_ok (dt : datetime) : bool :=
  (year dt <? 10000) && (month dt <? 100) && (day dt <? 100)
  && (hour dt <? 100) && (minute dt <? 100) && (second dt <? 100).

Definition entropy0 (n : nat) : N := (N.of_nat n * 37 + 11) mod 256.

(** The world before the program first runs: no files. *)
Definition boot : state :=
  mkState (mkVaultEncryptor EmptyString EmptyString None) ∅
          (DateTime 2025 1 1 12 0 0) entropy0 0 [].

(** After [VaultEncryptor()] with the default paths. *)
Definition fresh_vault : state :=
  snd (@VaultEncryptor_init toy_cryptography "secret.key" "vault_data.json"
                            boot).

Definition sample_record : json :=
  vault_record (lit "hi") (lit "2025-01-01 12:00:00").

(** After one [save_data]. *)
Definition saved_vault : state :=
  snd (@save_data toy_cryptography sample_record fresh_vault).

Definition with_file (p : path) (f : file) (s : state) : state :=
  mkState (self s) (<[p := f]> (fs s)) (clock s) (entropy s) (cursor s)
          (trace s).

(** The saved vault with its data file cut down to three bytes. *)
Definition tampered_vault : state :=
  with_file "vault_data.json" (File [1; 2; 3] mode_600) saved_vault.

(** The saved vault with a data file the owner may only read (0o400). *)
Definition readonly_vault : state :=
  match fs saved_vault !! "vault_data.json"%string with
  | Some f => with_file "vault_data.json" (File (f_data f) 256) saved_vault
  | None => saved_vault
  end.

Definition other_key : bytes := urlsafe_b64encode (repeat 7 32).

(** The saved vault beside a backup made under another key. *)
Definition foreign_backup_vault : state :=
  with_file "old.backup"
    (File (toy_encrypt other_key (DateTime 2024 6 1 8 0 0) (repeat 9 16)
                       (lit "{}")) mode_600)
    saved_vault.

(** The saved vault with a data file the owner may neither read nor
    write (0o000). *)
Definition unreadable_vault : state :=
  match fs saved_vault !! "vault_data.json"%string with
  | Some f => with_file "vault_data.json" (File (f_data f) 0) saved_vault
  | None => saved_vault
  end.

(** The saved vault after its key file was lost. *)
Definition orphaned_vault : state :=
  mkState (self saved_vault) (delete "secret.key"%string (fs saved_vault))
          (clock saved_vault) (entropy saved_vault) (cursor saved_vault)
          (trace saved_vault).

(** ** Vocabulary of the statements *)

(** Where [backup_data] puts the copy when no target is given. *)
Definition default_backup_file (s : state) : path :=
  String.append (data_file (self s))
    (String.append ".backup_" (strftime_Ymd_HMS (clock s))).

(** A zero-padded field: exactly [width] decimal digits. *)
Definition padded (width : nat) (t : string) : bool :=
  (String.length t =? width)%nat && all_digits t.

(** What one key rotation does to the file system once the backup step is
    over, with the value it returns: nothing, the key file alone, or the
    key file and then the data file. *)
Inductive rotation_effects (kf df : path) (key : bytes)
  : bool -> list event -> Prop :=
| rotation_not_started :
    rotation_effects kf df key false []
| rotation_key_only :
    rotation_effects kf df key false
      [EvWrite kf key; EvChmod kf mode_600]
| rotation_complete (token : bytes) :
    rotation_effects kf df key true
      [EvWrite kf key; EvChmod kf mode_600;
       EvWrite df token; EvChmod df mode_600].

(** A fresh process on the files of [s]: [VaultEncryptor()] with the
    default paths, then [decrypt_data] on what the data file holds. *)
Definition reopen_and_decrypt `{Cryptography} (s : state) : result json :=
  let s' := snd (VaultEncryptor_init "secret.key" "vault_data.json" s) in
  match fs s' !! "vault_data.json"%string with
  | Some f => fst (decrypt_data (f_data f) s')
  | None => Raise FileNotFoundError
  end.

(** ** The rest of class VaultEncryptor *)

(** [key in d] for a dict. *)
Definition dict_has (d : list (str * json)) (key : str) : bool :=
  existsb (fun kv => str_eqb (fst kv) key) d.

Definition required_fields : list str := [lit "notes"; lit "last_modified"].

(** The loop [for field in required_fields: if field not in data: return
    False] of [verify_data_integrity]; [true] when it runs to its end. *)
Fixpoint has_fields (d : list (str * json)) (fields : list str) : bool :=
  match fields with
  | [] => true
  | field :: rest => if negb (dict_has d field) then false
                     else has_fields d rest
  end.

(** One entry of what [get_file_info] returns. *)
Record file_info := mkFileInfo {
  info_path : path;
  info_exists : bool;
  info_size : nat
}.

Record encryptor_info := mkEncryptorInfo {
  info_key_file : file_info;
  info_data_file : file_info;
  cipher_initialized : bool
}.

(** [os.path.getsize(p)] *)
Definition os_path_getsize (p : path) : M nat :=
  fun s => match fs s !! p with
           | Some f => (Ok (length (f_data f)), s)
           | None => (Raise FileNotFoundError, s)
           end.

(** [open(p, 'r+b')]: the file must exist, and the owner must be allowed
    to read and to write it. *)
Definition open_update (p : path) : M unit :=
  fun s => match fs s !! p with
           | None => (Raise FileNotFoundError, s)
           | Some f => if readable f && writable f then (Ok tt, s)
                       else (Raise PermissionError, s)
           end.

(** [f.seek(0); f.write(data); f.flush(); os.fsync(f.fileno())] on a file
    open for update: the leading bytes are replaced, the rest stays. *)
Definition write_at_start (p : path) (data : bytes) : M unit :=
  fun s => match fs s !! p with
           | None => (Raise FileNotFoundError, s)
           | Some f =>
               (Ok tt,
                set_fs (<[p := File (data ++ drop (length data) (f_data f))
                                    (f_mode f)]> (fs s))
                       (EvWrite p data) s)
           end.

(** [os.remove(p)].  The log [trace] keeps writes, mode changes and
    copies; a removal shows in [fs] alone. *)
Definition os_remove (p : path) : M unit :=
  fun s => match fs s !! p with
           | None => (Raise FileNotFoundError, s)
           | Some _ =>
               (Ok tt, mkState (self s) (delete p (fs s)) (clock s)
                               (entropy s) (cursor s) (trace s))
           end.

(** The [for _ in range(3)] loop of [secure_delete_file], for any number
    of passes. *)
Fixpoint overwrite_passes (passes : nat) (p : path) (file_size : nat)
  : M unit :=
  match passes with
  | O => mret tt
  | S rest =>
      random ← os_urandom file_size;
      write_at_start p random;;
      overwrite_passes rest p file_size
  end.

(** [secure_delete_file] uses no cipher. *)
Definition secure_delete_file (file_path : path) : M bool :=
  try_except
    (ex ← os_path_exists file_path;
     if negb ex then mret true
     else
       file_size ← os_path_getsize file_path;
       open_update file_path;;
       overwrite_passes 3 file_path file_size;;
       os_remove file_path;;
       mret true)
    (fun _ => mret false).

Definition get_file_info : M encryptor_info :=
  let info_of (p : path) : M file_info :=
    ex ← os_path_exists p;
    ex' ← os_path_exists p;
    size ← (if ex' : bool then os_path_getsize p else mret 0%nat);
    mret (mkFileInfo p ex size) in
  kf ← get (fun s => key_file (self s));
  df ← get (fun s => data_file (self s));
  ki ← info_of kf;
  di ← info_of df;
  c ← get (fun s => cipher (self s));
  mret (mkEncryptorInfo ki di (bool_decide (is_Some c))).

(** When [shutil.copy2] goes through. *)
Definition can_copy (s : state) (src dst : path) : bool :=
  match fs s !! src with
  | Some f =>
      readable f && negb (bool_decide (src = dst))
      && match fs s !! dst with
         | Some g => writable g
         | None => true
         end
  | None => false
  end.

(** What [__init__] has set when it calls [load_or_generate_key]. *)
Definition reset_self (kf df : path) (s : state) : state :=
  mkState (mkVaultEncryptor kf df None) (fs s) (clock s) (entropy s)
          (cursor s) (trace s).

Section VaultEncryptorMore.
Context `{Cryptography}.

Definition verify_data_integrity : M bool :=
  try_except
    (df ← get (fun s => data_file (self s));
     ex ← os_path_exists df;
     if negb ex then mret true
     else
       data ← load_data;
       match data with
       | JObj d => mret (has_fields d required_fields)
       | _ => mret false
       end)
    (fun _ => mret false).

(** The steps of [change_encryption_key] once the key is chosen. *)
Definition rotation_steps (key : bytes) (data : json) : M bool :=
  try_except
    (c ← Fernet key;
     modify (set_cipher (Some c));;
     save_key key;;
     save_data data;;
     mret true)
    (fun _ => mret false).

End VaultEncryptorMore.

(** ** The capture loop of [authenticate], tick by tick *)

Section LoopDefs.
Variable Dist : Type.
Variable norm_diff : encoding -> encoding -> Dist.
Variable dist_le : Dist -> Q -> bool.

(** The timeout test of the loop at one tick. *)
Definition timed_out (fa : FaceAuthenticator) (start_time : Q) (tk : tick)
  : bool :=
  Qlt_bool (timeout_seconds fa) (now tk - start_time).

(** A tick whose frame is processed and matches. *)
Definition matching_tick (fa : FaceAuthenticator) (start_time : Q)
  (tk : tick) : bool :=
  negb (timed_out fa start_time tk)
  && match frame tk with
     | Some (Some encs) => verify_face Dist norm_diff dist_le fa (Some encs)
     | _ => false
     end.

(** A tick whose frame is processed, shows a face, and does not match. *)
Definition mismatching_tick (fa : FaceAuthenticator) (start_time : Q)
  (tk : tick) : bool :=
  negb (timed_out fa start_time tk)
  && match frame tk with
     | Some (Some encs) =>
         negb (verify_face Dist norm_diff dist_le fa (Some encs))
     | _ => false
     end.

(** A tick in time at which the camera gives nothing, or a frame without
    a face. *)
Definition faceless_tick (fa : FaceAuthenticator) (start_time : Q)
  (tk : tick) : bool :=
  negb (timed_out fa start_time tk)
  && match frame tk with
     | Some (Some _) => false
     | _ => true
     end.

(** A tick in time at which the camera gives no frame: the loop goes
    round without touching its counters. *)
Definition skipped_tick (fa : FaceAuthenticator) (start_time : Q)
  (tk : tick) : bool :=
  negb (timed_out fa start_time tk)
  && match frame tk with
     | None => true
     | Some _ => false
     end.

Definition count_ticks (p : tick -> bool) (ticks : list tick) : nat :=
  length (List.filter p ticks).

(** [streak n ticks]: the ticks begin with [n] matching ticks in a row,
    not counting ticks at which the camera gave no frame. *)
Inductive streak (fa : FaceAuthenticator) (start_time : Q)
  : nat -> list tick -> Prop :=
| streak_done (ticks : list tick) : streak fa start_time 0 ticks
| streak_skip (n : nat) (tk : tick) (ticks : list tick) :
    skipped_tick fa start_time tk = true ->
    streak fa start_time (S n) ticks ->
    streak fa start_time (S n) (tk :: ticks)
| streak_match (n : nat) (tk : tick) (ticks : list tick) :
    matching_tick fa start_time tk = true ->
    streak fa start_time n ticks ->
    streak fa start_time (S n) (tk :: ticks).

End LoopDefs.

(** The messages [authenticate] returns. *)
Definition msg_no_reference : string :=
  "No reference face found. Please setup face first.".
Definition msg_no_camera : string := "Cannot access camera".
Definition msg_success : string := "Authentication successful".
Definition msg_timeout : string := "Authentication failed: Timeout".

(** ** class FaceAuthenticator: the enrolment files

    The methods that read and write the reference image and the pickled
    encodings work on the files of a [state] and on the object's list of
    known encodings.  Images, [face_recognition] and [pickle] are taken as
    given; a pickle that holds anything but a list of encodings is not
    represented.  [os.rename] and failures of the libraries have no place
    in the log [trace] or in [exn], so this part has its own result
    type. *)

(** The two paths of a [FaceAuthenticator]. *)
Record face_paths := mkFacePaths {
  reference_image_path : path;
  encodings_path : path
}.

Inductive face_exn :=
| OSError (e : exn)
| NoFaceFound
| CouldNotEncode
| ImageError
| PickleError.

Inductive face_result (A : Type) :=
| FOk (a : A)
| FRaise (e : face_exn).
Arguments FOk {A} a.
Arguments FRaise {A} e.

(** The object and the world it lives in. *)
Record face_world := mkFaceWorld {
  fw_self : FaceAuthenticator;
  fw_os : state
}.

Definition FM (A : Type) : Type := face_world -> face_result A * face_world.

Definition fret {A} (a : A) : FM A := fun w => (FOk a, w).
Definition fraise {A} (e : face_exn) : FM A := fun w => (FRaise e, w).
Definition fbind {A B} (m : FM A) (k : A -> FM B) : FM B :=
  fun w => match m w with
           | (FOk a, w') => k a w'
           | (FRaise e, w') => (FRaise e, w')
           end.
Definition ftry {A} (m : FM A) (handler : face_exn -> FM A) : FM A :=
  fun w => match m w with
           | (FOk a, w') => (FOk a, w')
           | (FRaise e, w') => handler e w'
           end.

#[export] Instance FM_ret : MRet FM := @fret.
#[export] Instance FM_bind : MBind FM := fun A B k m => fbind m k.

(** An operating-system call, run on the files of the world. *)
Definition os_call {A} (m : M A) : FM A :=
  fun w => match m (fw_os w) with
           | (Ok a, s') => (FOk a, mkFaceWorld (fw_self w) s')
           | (Raise e, s') => (FRaise (OSError e), mkFaceWorld (fw_self w) s')
           end.

(** [self.known_face_encodings = known] *)
Definition set_known (known : list encoding) : FM unit :=
  fun w => (FOk tt,
            mkFaceWorld
              (mkFaceAuthenticator known (tolerance (fw_self w))
                 (max_attempts (fw_self w)) (timeout_seconds (fw_self w)))
              (fw_os w)).

(** [self.known_face_encodings] *)
Definition get_known : FM (list encoding) :=
  fun w => (FOk (known_face_encodings (fw_self w)), w).

(** [os.rename(src, dst)]: [dst] is replaced if it exists.  The change
    shows in [fs] alone. *)
Definition os_rename (src dst : path) : M unit :=
  fun s => match fs s !! src with
           | None => (Raise FileNotFoundError, s)
           | Some f =>
               (Ok tt, mkState (self s) (<[dst := f]> (delete src (fs s)))
                               (clock s) (entropy s) (cursor s) (trace s))
           end.

Section Enrolment.
Variable Image Location : Type.
Variable decode_image : bytes -> option Image.
Variable face_locations : Image -> list Location.
Variable face_encodings : Image -> list Location -> list encoding.
Variable pickle_dumps : list encoding -> bytes.
Variable pickle_loads : bytes -> option (list encoding).

(** [face_recognition.load_image_file(p)] *)
Definition load_image_file (p : path) : FM Image :=
  data ← os_call (read_file p);
  match decode_image data with
  | Some image => mret image
  | None => fraise ImageError
  end.

(** [with open(p, 'rb') as f: pickle.load(f)] *)
Definition pickle_load (p : path) : FM (list encoding) :=
  data ← os_call (read_file p);
  match pickle_loads data with
  | Some known => mret known
  | None => fraise PickleError
  end.

(** [with open(p, 'wb') as f: pickle.dump(known, f)] *)
Definition pickle_dump (known : list encoding) (p : path) : FM unit :=
  os_call (write_file p (pickle_dumps known)).

Definition create_face_encodings (paths : face_paths) : FM unit :=
  ftry
    (reference_image ← load_image_file (reference_image_path paths);
     let locations := face_locations reference_image in
     match locations with
     | [] => fraise NoFaceFound
     | _ =>
         let encodings := face_encodings reference_image locations in
         match encodings with
         | [] => fraise CouldNotEncode
         | _ =>
             set_known encodings;;
             known ← get_known;
             pickle_dump known (encodings_path paths)
         end
     end)
    (fun e => fraise e).

Definition load_or_create_encodings (paths : face_paths) : FM unit :=
  ftry
    (has_encodings ← os_call (os_path_exists (encodings_path paths));
     if has_encodings : bool then
       (known ← pickle_load (encodings_path paths);
        set_known known) : FM unit
     else
       has_image ← os_call (os_path_exists (reference_image_path paths));
       if has_image : bool then create_face_encodings paths
       else mret tt)
    (fun _ => set_known []).

(** [FaceAuthenticator(reference_image_path, encodings_path)] *)
Definition FaceAuthenticator_new (paths : face_paths) : FM unit :=
  ((fun w => (FOk tt, mkFaceWorld (FaceAuthenticator_init []) (fw_os w)))
   : FM unit);;
  load_or_create_encodings paths.

Definition update_reference_face (paths : face_paths) (new_image_path : path)
  : FM bool :=
  ftry
    (has_image ← os_call (os_path_exists (reference_image_path paths));
     (if has_image : bool then
        let backup_path :=
          String.append (reference_image_path paths) ".backup" in
        os_call (os_rename (reference_image_path paths) backup_path)
      else mret tt : FM unit);;
     os_call (shutil_copy2 new_image_path (reference_image_path paths));;
     create_face_encodings paths;;
     mret true)
    (fun _ => mret false).

(** What [create_face_encodings] gets out of an image file: the encodings
    of its faces, if the file can be read, is an image, and shows a face
    that can be encoded. *)
Definition enrol_from (f : file) : option (list encoding) :=
  if readable f then
    match decode_image (f_data f) with
    | Some image =>
        match face_locations image with
        | [] => None
        | l :: ls =>
            match face_encodings image (l :: ls) with
            | [] => None
            | e :: es => Some (e :: es)
            end
        end
    | None => None
    end
  else None.

End Enrolment.


(** ** neurovault_main.py: loading and saving from the notes window

    Of [NeuroVaultApp] only what passes between the widgets and the
    encryptor is kept: the text of the notes box goes in, and what the
    window would show comes out. *)





(** [d.get(key, default)] *)
Fixpoint dict_get (d : list (str * json)) (key : str) (default : json)
  : json :=
  match d with
  | [] => default
  | (k, v) :: r => if str_eqb k key then v else dict_get r key default
  end.

(** What [load_vault_data] leaves on the screen: the notes box and the
    status line filled in, or an error box. *)
Inductive screen :=
| Shown (notes last_modified : json)
| ErrorBox.

Section NeuroVaultApp.
Context `{Cryptography}.

(** [load_vault_data]: a loaded value that is no dict has no [get]. *)
Definition load_vault_data : M screen :=
  try_except
    (vault_data ← load_data;
     match vault_data with
     | JObj d =>
         mret (Shown (dict_get d (lit "notes") (JStr []))
                     (dict_get d (lit "last_modified") (JStr (lit "Never"))))
     | _ => raise AttributeError
     end)
    (fun _ => mret ErrorBox).


End NeuroVaultApp.

(** ** neurovault_setup.py: system dependencies

    [install_system_dependencies] reads the platform name and asks
    [which] for a package manager.  [probe cmd] is what
    [subprocess.run(cmd, capture_output=True)] gives: a return code, or an
    exception when the program cannot be started.  The commands run are
    collected in order. *)

Definition ascii_lower (a : ascii) : ascii :=
  let n := N_of_ascii a in
  if (65 <=? n) && (n <=? 90) then ascii_of_N (n + 32) else a.

(** [s.lower()] for a name in ASCII. *)
Fixpoint string_lower (s : string) : string :=
  match s with
  | EmptyString => EmptyString
  | String a r => String (ascii_lower a) (string_lower r)
  end.

Definition command := list string.

(** [subprocess.run(["which", tool], capture_output=True).returncode == 0] *)
Definition which_found (probe : command -> result Z) (tool : string)
  : result bool * list command :=
  (match probe ["which"; tool]%string with
   | Ok rc => Ok (rc =? 0)%Z
   | Raise e => Raise e
   end, [["which"; tool]%string]).

Definition install_system_dependencies (platform_system : string)
  (probe : command -> result Z) : result bool * list command :=
  let system := string_lower platform_system in
  if String.eqb system "linux" then
    match which_found probe "apt" with
    | (Raise e, ran) => (Raise e, ran)
    | (Ok true, ran) => (Ok true, ran)
    | (Ok false, ran) =>
        match which_found probe "yum" with
        | (Raise e, ran') => (Raise e, ran ++ ran')
        | (Ok true, ran') => (Ok true, ran ++ ran')
        | (Ok false, ran') => (Ok false, ran ++ ran')
        end
    end
  else if String.eqb system "darwin" then
    match which_found probe "brew" with
    | (Raise e, ran) => (Raise e, ran)
    | (Ok true, ran) => (Ok true, ran)
    | (Ok false, ran) => (Ok false, ran)
    end
  else if String.eqb system "windows" then (Ok true, [])
  else (Ok false, []).

(** A command that only asks where a program is. *)
Definition is_which_probe (c : command) : bool :=
  match c with
  | [w; _] => String.eqb w "which"
  | _ => false
  end.

(** ** More sample states *)

(** What the data file of the saved vault holds. *)
Definition saved_file : file :=
  default (File [] 0) (fs saved_vault !! "vault_data.json"%string).

(** The key of the saved vault. *)
Definition saved_key : bytes := urlsafe_b64encode (map entropy0 (seq 0 32)).

(** The saved vault with a key file that holds three bytes. *)
Definition corrupt_key_vault : state :=
  with_file "secret.key" (File [1; 2; 3] mode_600) saved_vault.

(** The saved vault with a key file the owner may only write (0o200). *)
Definition writeonly_key_vault : state :=
  with_file "secret.key" (File saved_key 128) saved_vault.

(** The saved vault with a key file the owner may only read (0o400). *)
Definition readonly_key_vault : state :=
  with_file "secret.key" (File saved_key 256) saved_vault.

(** The saved vault after [backup_data()]. *)
Definition backed_up_vault : state := snd (backup_data None saved_vault).

(** The saved vault, and the tampered one, after a rotation to
    [other_key]. *)
Definition rekeyed_vault : state :=
  snd (@change_encryption_key toy_cryptography (Some other_key) saved_vault).

Definition rekeyed_tampered_vault : state :=
  snd (@change_encryption_key toy_cryptography (Some other_key)
                              tampered_vault).

(** A runnable stand-in for images, [face_recognition] and [pickle]: an
    image is its bytes, every byte that is not zero is a face, and the
    encoding of a face is that byte as a vector of length one. *)
Definition toy_decode_image (data : bytes) : option bytes :=
  match data with
  | [] => None
  | _ => Some data
  end.

Definition toy_face_locations (image : bytes) : list N :=
  List.filter (fun b => negb (b =? 0)) image.

Definition toy_face_encodings (image : bytes) (locations : list N)
  : list encoding :=
  map (fun b => [inject_Z (Z.of_N b)]) locations.

Definition toy_pickle_dumps (known : list encoding) : bytes :=
  map (fun e => match e with
                | [q] => Z.to_N (Qnum q)
                | _ => 0
                end) known.

Definition toy_pickle_loads (data : bytes) : option (list encoding) :=
  Some (map (fun b => [inject_Z (Z.of_N b)]) data).

Definition toy_new :=
  FaceAuthenticator_new bytes N toy_decode_image toy_face_locations
    toy_face_encodings toy_pickle_dumps toy_pickle_loads.

Definition toy_update :=
  update_reference_face bytes N toy_decode_image toy_face_locations
    toy_face_encodings toy_pickle_dumps.

Definition toy_enrol_from :=
  enrol_from bytes N toy_decode_image toy_face_locations toy_face_encodings.

Definition default_paths : face_paths :=
  mkFacePaths "user_face.jpg" "face_encodings.pkl".

(** A world with a reference image and nothing else. *)
Definition image_world (image : bytes) : face_world :=
  mkFaceWorld (FaceAuthenticator_init [])
    (with_file "user_face.jpg" (File image mode_default) boot).

(** After [FaceAuthenticator()] over an image with one face. *)
Definition enrolled_world : face_world :=
  snd (toy_new default_paths (image_world [5])).

(** The enrolled world with a new image beside the reference image. *)
Definition update_world (image : bytes) : face_world :=
  mkFaceWorld (fw_self enrolled_world)
    (with_file "new.jpg" (File image mode_default) (fw_os enrolled_world)).

(** * Properties *)

(** ** The model at work *)

Example json_loads_sample :
  json_loads (dq "{ 'a' : [1, -20, 3.5e2, true, null], 'b': {}, 'a': 'x\u00e9' } ")
  = Ok (JObj [(lit "a", JStr [120; 233]); (lit "b", JObj [])]).
Proof. reflexivity. Qed.

Example json_loads_extra_data : json_loads (lit "01") = Raise JSONDecodeError.
Proof. reflexivity. Qed.

Example json_dumps_sample :
  json_dumps (JObj [(lit "a", JArr [JInt 1; JInt (-20)]); (lit "b", JStr [120; 233; 128512])])
  = dq "{
  'a': [
    1,
    -20
  ],
  'b': 'x\u00e9\ud83d\ude00'
}".
Proof. reflexivity. Qed.

Example strftime_sample :
  strftime_Ymd_HMS (DateTime 2025 1 31 9 5 0) = "20250131_090500"%string.
Proof. reflexivity. Qed.

(** ** JSON text of a vault record reads back *)

Ltac Zify.zify_post_hook ::= Z.to_euclidean_division_equations.

Lemma hex_value_digit (d : N) : d < 16 -> hex_value (hex_digit d) = Some d.
Proof.
  intros Hd. unfold hex_value, hex_digit.
  destruct (d <? 10) eqn:E.
  - apply N.ltb_lt in E.
    replace ((48 <=? 48 + d) && (48 + d <=? 57)) with true.
    + f_equal. lia.
    + symmetry. apply andb_true_iff. split; apply N.leb_le; lia.
  - apply N.ltb_ge in E.
    replace ((48 <=? 87 + d) && (87 + d <=? 57)) with false.
    + replace ((97 <=? 87 + d) && (87 + d <=? 102)) with true.
      * f_equal. lia.
      * symmetry. apply andb_true_iff. split; apply N.leb_le; lia.
    + symmetry. apply andb_false_iff. right. apply N.leb_gt. lia.
Qed.

Lemma decode_u_escape (n : N) :
  n < 65536 ->
  decode_uXXXX (hex_digit (n / 4096)) (hex_digit ((n / 256) mod 16))
               (hex_digit ((n / 16) mod 16)) (hex_digit (n mod 16)) = Some n.
Proof.
  intros Hn. unfold decode_uXXXX.
  rewrite !hex_value_digit by lia.
  f_equal. lia.
Qed.

Lemma scanstring_u (a b c d uni : N) (rest : str) :
  decode_uXXXX a b c d = Some uni ->
  is_high_surrogate uni = false ->
  scanstring (BACKSLASH :: 117 :: a :: b :: c :: d :: rest)
  = push_char uni (scanstring rest).
Proof.
  intros Hd Hh.
  cbn -[decode_uXXXX is_high_surrogate]. rewrite Hd.
  destruct rest as [|x [|y r]]; try reflexivity.
  rewrite Hh. reflexivity.
Qed.

Lemma scanstring_pair (a b c d e f g h hi lo : N) (rest : str) :
  decode_uXXXX a b c d = Some hi ->
  is_high_surrogate hi = true ->
  decode_uXXXX e f g h = Some lo ->
  is_low_surrogate lo = true ->
  scanstring (BACKSLASH :: 117 :: a :: b :: c :: d
              :: BACKSLASH :: 117 :: e :: f :: g :: h :: rest)
  = push_char (65536 + ((hi - 55296) * 1024 + (lo - 56320)))
              (scanstring rest).
Proof.
  intros Hd Hh Hd' Hl.
  cbn -[decode_uXXXX is_high_surrogate is_low_surrogate].
  rewrite Hd, Hh. cbn -[decode_uXXXX is_high_surrogate is_low_surrogate].
  rewrite Hd', Hl. reflexivity.
Qed.

Lemma scanstring_escape_char (c : N) (rest : str) :
  scalar_value c = true ->
  scanstring (escape_char c ++ rest) = push_char c (scanstring rest).
Proof.
  unfold scalar_value, is_surrogate. intros Hv.
  apply andb_true_iff in Hv as [Hlt Hns]. apply N.ltb_lt in Hlt.
  apply negb_true_iff, andb_false_iff in Hns.
  unfold escape_char.
  destruct (c =? DQUOTE) eqn:E1; [apply N.eqb_eq in E1; subst; reflexivity|].
  destruct (c =? BACKSLASH) eqn:E2; [apply N.eqb_eq in E2; subst; reflexivity|].
  destruct (c =? 10) eqn:E3; [apply N.eqb_eq in E3; subst; reflexivity|].
  destruct (c =? 13) eqn:E4; [apply N.eqb_eq in E4; subst; reflexivity|].
  destruct (c =? 9) eqn:E5; [apply N.eqb_eq in E5; subst; reflexivity|].
  destruct (c =? 12) eqn:E6; [apply N.eqb_eq in E6; subst; reflexivity|].
  destruct (c =? 8) eqn:E7; [apply N.eqb_eq in E7; subst; reflexivity|].
  destruct ((32 <=? c) && (c <=? 126)) eqn:E8.
  - apply andb_true_iff in E8 as [L U]. apply N.leb_le in L.
    cbn [app scanstring]. rewrite E1, E2.
    replace (c <? 32) with false by (symmetry; apply N.ltb_ge; exact L).
    reflexivity.
  - destruct (c <? 65536) eqn:E9.
    + apply N.ltb_lt in E9. unfold u_escape. cbn [app].
      apply scanstring_u.
      * apply decode_u_escape. exact E9.
      * unfold is_high_surrogate. apply andb_false_iff.
        destruct Hns as [G|G]; [left; exact G|].
        apply N.leb_gt in G. right. apply N.leb_gt. lia.
    + apply N.ltb_ge in E9. unfold u_escape. cbn [app].
      set (n := c - 65536).
      assert (Hn : n < 1048576) by (unfold n; lia).
      rewrite (scanstring_pair _ _ _ _ _ _ _ _
                 (55296 + (n / 1024) mod 1024) (56320 + n mod 1024)).
      * f_equal. unfold n. lia.
      * apply decode_u_escape. lia.
      * unfold is_high_surrogate. apply andb_true_iff.
        split; apply N.leb_le; lia.
      * apply decode_u_escape. lia.
      * unfold is_low_surrogate. apply andb_true_iff.
        split; apply N.leb_le; lia.
Qed.

Lemma scanstring_escaped (s rest : str) :
  valid_text s = true ->
  scanstring (flat_map escape_char s ++ DQUOTE :: rest) = Some (s, rest).
Proof.
  induction s as [|c s IH]; intros Hs.
  - reflexivity.
  - simpl in Hs. apply andb_true_iff in Hs as [Hc Hs].
    cbn [flat_map]. rewrite <- app_assoc.
    rewrite scanstring_escape_char by exact Hc.
    rewrite IH by exact Hs. reflexivity.
Qed.

Lemma encode_key_notes :
  encode_basestring_ascii (lit "notes") = dq "'notes'".
Proof. vm_compute. reflexivity. Qed.

Lemma encode_key_last_modified :
  encode_basestring_ascii (lit "last_modified") = dq "'last_modified'".
Proof. vm_compute. reflexivity. Qed.

Ltac list_nf :=
  cbv -[flat_map escape_char app scanstring scan_once JSONObject skip_ws];
  repeat first [rewrite <- !app_assoc | progress cbn [app]].

Lemma json_dumps_vault_record (n m : str) :
  json_dumps (vault_record n m)
  = dq "{
  'notes': '" ++ flat_map escape_char n ++ dq "',
  'last_modified': '" ++ flat_map escape_char m ++ dq "'
}".
Proof.
  unfold json_dumps, vault_record. cbn [iterencode].
  rewrite encode_key_notes, encode_key_last_modified.
  unfold encode_basestring_ascii.
  list_nf. reflexivity.
Qed.

Lemma scan_once_vault_record (n m rest : str) (fuel : nat) :
  valid_text n = true ->
  valid_text m = true ->
  scan_once (4 + fuel) (json_dumps (vault_record n m) ++ rest)
  = Some (vault_record n m, rest).
Proof.
  intros Hn Hm. rewrite json_dumps_vault_record.
  list_nf.
  cbn -[flat_map escape_char].
  rewrite scanstring_escaped by exact Hn.
  cbn -[flat_map escape_char].
  rewrite scanstring_escaped by exact Hm.
  cbn -[flat_map escape_char].
  reflexivity.
Qed.

Lemma json_loads_dumps_vault_record (n m : str) :
  valid_text n = true ->
  valid_text m = true ->
  json_loads (json_dumps (vault_record n m)) = Ok (vault_record n m).
Proof.
  intros Hn Hm. unfold json_loads.
  assert (Hlen : exists f,
             S (2 * length (json_dumps (vault_record n m))) = (4 + f)%nat).
  { assert (Hge : (2 <= length (json_dumps (vault_record n m)))%nat).
    { rewrite json_dumps_vault_record. list_nf. cbn [length]. lia. }
    exists (2 * length (json_dumps (vault_record n m)) - 3)%nat. lia. }
  destruct Hlen as [f ->].
  assert (Hws : skip_ws (json_dumps (vault_record n m))
                = json_dumps (vault_record n m)).
  { rewrite json_dumps_vault_record. reflexivity. }
  rewrite Hws.
  rewrite <- (app_nil_r (json_dumps (vault_record n m))).
  rewrite scan_once_vault_record by assumption.
  reflexivity.
Qed.

(** Why the text must be proper: two surrogate code points side by side
    are written as one escaped pair and read back as a single character. *)
Example surrogate_pair_not_restored :
  json_loads (json_dumps (vault_record [55357; 56832] []))
  = Ok (vault_record [128512] []).
Proof. vm_compute. reflexivity. Qed.

Lemma utf8_encode_ascii (s : str) :
  forallb is_ascii s = true -> utf8_encode s = Ok s.
Proof.
  induction s as [|c s IH]; intros Hs; [reflexivity|].
  simpl in Hs. apply andb_true_iff in Hs as [Hc Hs].
  cbn [utf8_encode]. unfold utf8_encode_char.
  unfold is_ascii in Hc. rewrite Hc, (IH Hs). reflexivity.
Qed.

Lemma utf8_decode_ascii (s : bytes) :
  forallb is_ascii s = true -> utf8_decode s = Ok s.
Proof.
  induction s as [|c s IH]; intros Hs; [reflexivity|].
  simpl in Hs. apply andb_true_iff in Hs as [Hc Hs].
  cbn [utf8_decode]. unfold is_ascii in Hc. rewrite Hc, (IH Hs). reflexivity.
Qed.

Lemma hex_digit_ascii (d : N) : d < 16 -> is_ascii (hex_digit d) = true.
Proof.
  intros Hd. unfold is_ascii, hex_digit.
  destruct (d <? 10); apply N.ltb_lt; lia.
Qed.

Lemma u_escape_ascii (n : N) :
  n < 65536 -> forallb is_ascii (u_escape n) = true.
Proof.
  intros Hn. unfold u_escape. cbn [forallb].
  rewrite !hex_digit_ascii by lia. reflexivity.
Qed.

Lemma escape_char_ascii (c : N) : forallb is_ascii (escape_char c) = true.
Proof.
  unfold escape_char.
  repeat match goal with
         | |- context [if ?c =? ?k then _ else _] =>
             destruct (c =? k); [reflexivity|]
         end.
  destruct ((32 <=? c) && (c <=? 126)) eqn:E.
  - apply andb_true_iff in E as [_ U]. apply N.leb_le in U.
    cbn [forallb]. unfold is_ascii.
    replace (c <? 128) with true by (symmetry; apply N.ltb_lt; lia).
    reflexivity.
  - destruct (c <? 65536) eqn:E'.
    + apply u_escape_ascii, N.ltb_lt, E'.
    + rewrite forallb_app, !u_escape_ascii by lia. reflexivity.
Qed.

Lemma flat_map_escape_ascii (s : str) :
  forallb is_ascii (flat_map escape_char s) = true.
Proof.
  induction s as [|c s IH]; [reflexivity|].
  cbn [flat_map]. rewrite forallb_app, escape_char_ascii, IH. reflexivity.
Qed.

Lemma json_dumps_vault_record_ascii (n m : str) :
  forallb is_ascii (json_dumps (vault_record n m)) = true.
Proof.
  rewrite json_dumps_vault_record.
  rewrite !forallb_app, !flat_map_escape_ascii. reflexivity.
Qed.

(** ** Running monadic code *)

Ltac monad_unfold :=
  repeat progress
    (unfold try_except, mbind, M_bind, mret, M_ret, bind, ret, raise, get,
            lift, modify;
     cbv beta iota).

Lemma exists_true (s : state) (p : path) (f : file) :
  fs s !! p = Some f -> bool_decide (is_Some (fs s !! p)) = true.
Proof. intros Hf. apply bool_decide_eq_true_2. eauto. Qed.

Lemma exists_false (s : state) (p : path) :
  fs s !! p = None -> bool_decide (is_Some (fs s !! p)) = false.
Proof.
  intros Hf. apply bool_decide_eq_false_2. rewrite Hf. intros [x Hx].
  discriminate.
Qed.

Lemma run_bind {A B} (m : M A) (k : A -> M B) (s : state) :
  (m ≫= k) s = match m s with
               | (Ok a, s') => k a s'
               | (Raise e, s') => (Raise e, s')
               end.
Proof. reflexivity. Qed.

Lemma try_bind_Ok {A B} (m : M A) (k : A -> M B) (h : exn -> M B)
  (s s' : state) (a : A) :
  m s = (Ok a, s') ->
  try_except (m ≫= k) h s = try_except (k a) h s'.
Proof. intros Hm. unfold try_except. rewrite run_bind, Hm. reflexivity. Qed.

Lemma try_bind_Raise {A B} (m : M A) (k : A -> M B) (h : exn -> M B)
  (s s' : state) (e : exn) :
  m s = (Raise e, s') ->
  try_except (m ≫= k) h s = h e s'.
Proof. intros Hm. unfold try_except. rewrite run_bind, Hm. reflexivity. Qed.

(** *** Backup names *)

Lemma append_cons (x : ascii) (a b : string) :
  String.append (String x a) b = String x (String.append a b).
Proof. reflexivity. Qed.

Lemma append_assoc (a b c : string) :
  String.append (String.append a b) c = String.append a (String.append b c).
Proof.
  induction a as [|x a IH]; [reflexivity|].
  rewrite !append_cons. now rewrite IH.
Qed.

Lemma append_longer (a : string) (c : ascii) (r : string) :
  String.append a (String c r) <> a.
Proof.
  intros Heq.
  assert (Hlen : String.length (String.append a (String c r))
                 = String.length a) by now rewrite Heq.
  clear Heq. induction a as [|x a IH]; [discriminate|].
  rewrite append_cons in Hlen. apply IH. now injection Hlen.
Qed.

Lemma string_strip_prefix_append (p s : string) :
  string_strip_prefix p (String.append p s) = Some s.
Proof.
  induction p as [|a p IH]; [reflexivity|].
  rewrite append_cons. cbn [string_strip_prefix].
  now rewrite Ascii.eqb_refl.
Qed.

Lemma zero_pad_below (width : nat) (bound n : N) :
  forallb (fun i => padded width (zero_pad width (N.of_nat i)))
          (seq 0 (N.to_nat bound))
  = true ->
  n < bound ->
  padded width (zero_pad width n) = true.
Proof.
  intros Hall Hn. rewrite forallb_forall in Hall.
  rewrite <- (N2Nat.id n). apply Hall. apply in_seq. lia.
Qed.

Lemma zero_pad_4 (n : N) : n < 10000 -> padded 4 (zero_pad 4 n) = true.
Proof.
  intros Hn. apply (zero_pad_below 4 10000); [vm_compute; reflexivity | exact Hn].
Qed.

Lemma zero_pad_2 (n : N) : n < 100 -> padded 2 (zero_pad 2 n) = true.
Proof.
  intros Hn. apply (zero_pad_below 2 100); [vm_compute; reflexivity | exact Hn].
Qed.

Lemma padded_4 (t : string) :
  padded 4 t = true ->
  exists a b c d,
    t = String a (String b (String c (String d EmptyString)))
    /\ all_digits t = true.
Proof.
  unfold padded. intros Ht. apply andb_true_iff in Ht as [Hl Hd].
  apply Nat.eqb_eq in Hl.
  do 5 (destruct t as [|? t]; try discriminate Hl).
  eauto 10.
Qed.

Lemma padded_2 (t : string) :
  padded 2 t = true ->
  exists a b, t = String a (String b EmptyString) /\ all_digits t = true.
Proof.
  unfold padded. intros Ht. apply andb_true_iff in Ht as [Hl Hd].
  apply Nat.eqb_eq in Hl.
  do 3 (destruct t as [|? t]; try discriminate Hl).
  eauto 10.
Qed.

Lemma strftime_shape (dt : datetime) :
  datetime_ok dt = true ->
  let ts := strftime_Ymd_HMS dt in
  (String.length ts =? 15)%nat
  && all_digits (substring 0 8 ts)
  && String.eqb (substring 8 1 ts) "_"
  && all_digits (substring 9 6 ts) = true.
Proof.
  unfold datetime_ok. intros Hok.
  repeat (apply andb_true_iff in Hok as [Hok ?]).
  repeat match goal with H : (_ <? _) = true |- _ => apply N.ltb_lt in H end.
  unfold strftime_Ymd_HMS.
  destruct (padded_4 _ (zero_pad_4 _ Hok)) as (y1 & y2 & y3 & y4 & -> & Hy).
  repeat match goal with
         | H : _ < 100 |- _ =>
             let a := fresh "a" in let b := fresh "b" in
             let Hd := fresh "Hd" in
             destruct (padded_2 _ (zero_pad_2 _ H)) as (a & b & -> & Hd);
             clear H
         end.
  unfold all_digits in *. cbv [String.append].
  cbn -[is_digit N_of_ascii] in *.
  repeat match goal with
         | H : _ && _ = true |- _ => apply andb_true_iff in H as [? ?]
         end.
  repeat match goal with
         | H : is_digit _ = true |- _ => rewrite H; clear H
         end.
  reflexivity.
Qed.

Lemma backup_name_as_built (original : string) (dt : datetime) :
  datetime_ok dt = true ->
  code_backup_name original
    (String.append original (String.append ".backup_" (strftime_Ymd_HMS dt)))
  = true.
Proof.
  intros Hok. unfold code_backup_name.
  rewrite <- append_assoc, string_strip_prefix_append.
  apply strftime_shape, Hok.
Qed.

(** *** Backing up *)

Lemma default_backup_file_neq (s : state) :
  data_file (self s) <> default_backup_file s.
Proof.
  unfold default_backup_file. intros Heq. symmetry in Heq.
  exact (append_longer _ _ _ Heq).
Qed.

Lemma backup_data_absent (backup_file : option path) (s : state) :
  fs s !! data_file (self s) = None ->
  backup_data backup_file s = (Ok false, s).
Proof.
  intros Hno. unfold backup_data, os_path_exists. monad_unfold.
  rewrite (exists_false _ _ Hno). reflexivity.
Qed.

(** [backup_data()] has two outcomes: nothing happens and it returns
    [False], or the data file was copied to the default target. *)
Lemma backup_data_cases (s : state) :
  backup_data None s = (Ok false, s)
  \/ exists f,
       fs s !! data_file (self s) = Some f
       /\ backup_data None s
          = (Ok true,
             set_fs (<[default_backup_file s := f]> (fs s))
                    (EvCopy (data_file (self s)) (default_backup_file s)) s).
Proof.
  destruct (fs s !! data_file (self s)) as [f|] eqn:Hf.
  2:{ left. apply backup_data_absent, Hf. }
  unfold backup_data, os_path_exists, datetime_now, shutil_copy2.
  monad_unfold. rewrite (exists_true _ _ _ Hf). cbn [negb]. monad_unfold.
  fold (default_backup_file s). rewrite Hf.
  rewrite bool_decide_eq_false_2 by apply default_backup_file_neq.
  destruct (readable f); cbn [negb]; [|left; reflexivity].
  destruct (fs s !! default_backup_file s) as [g|].
  - destruct (writable g); [|left; reflexivity]. right. eauto.
  - right. eauto.
Qed.

(** C9, as the code has it.  With no data file, [backup_data()] returns
    [False] and writes nothing.  With a readable data file and no target
    given, it copies the file, contents and permission bits, to
    [<original>.backup_<YYYYMMDD>_<HHMMSS>] (an underscore stands between
    date and time) and returns [True], provided that path is free or holds
    a file the owner may write. *)
Theorem backup_data_default (s : state) :
  (fs s !! data_file (self s) = None ->
   backup_data None s = (Ok false, s))
  /\ (forall f,
        fs s !! data_file (self s) = Some f ->
        readable f = true ->
        datetime_ok (clock s) = true ->
        (forall g, fs s !! default_backup_file s = Some g ->
                   writable g = true) ->
        code_backup_name (data_file (self s)) (default_backup_file s) = true
        /\ backup_data None s
           = (Ok true,
              set_fs (<[default_backup_file s := f]> (fs s))
                     (EvCopy (data_file (self s)) (default_backup_file s))
                     s)).
Proof.
  split; [apply backup_data_absent|].
  intros f Hf Hr Hok Hw. split; [apply backup_name_as_built, Hok|].
  unfold backup_data, os_path_exists, datetime_now, shutil_copy2.
  monad_unfold. rewrite (exists_true _ _ _ Hf). cbn [negb]. monad_unfold.
  fold (default_backup_file s). rewrite Hf.
  rewrite bool_decide_eq_false_2 by apply default_backup_file_neq.
  rewrite Hr. cbn [negb].
  destruct (fs s !! default_backup_file s) as [g|] eqn:Hg; [|reflexivity].
  rewrite (Hw g eq_refl). reflexivity.
Qed.

(** *** Saving *)

Lemma save_key_cases (key : bytes) (s : state) :
  (exists e, save_key key s = (Raise e, s))
  \/ exists s',
       save_key key s = (Ok tt, s')
       /\ self s' = self s
       /\ fs s' = <[key_file (self s) := File key mode_600]> (fs s)
       /\ trace s' = trace s ++ [EvWrite (key_file (self s)) key;
                                 EvChmod (key_file (self s)) mode_600].
Proof.
  unfold save_key, write_file, os_chmod. monad_unfold.
  destruct (fs s !! key_file (self s)) as [f|] eqn:Hf.
  - destruct (writable f); [|left; eauto].
    right. cbn [set_fs fs]. rewrite lookup_insert_eq.
    eexists. split; [reflexivity|].
    cbn [set_fs self fs trace]. rewrite insert_insert_eq, <- app_assoc. auto.
  - right. cbn [set_fs fs]. rewrite lookup_insert_eq.
    eexists. split; [reflexivity|].
    cbn [set_fs self fs trace]. rewrite insert_insert_eq, <- app_assoc. auto.
Qed.

Section VaultProperties.
Context `{Cryptography}.

(** *** Loading *)

(** C7.  Where no vault data file exists, [load_data] returns the empty
    record [{notes: , last_modified: }] normally, raising nothing and
    changing nothing. *)
Theorem load_data_absent (s : state) :
  fs s !! data_file (self s) = None ->
  load_data s = (Ok empty_record, s).
Proof.
  intros Hno. unfold load_data, os_path_exists. monad_unfold.
  rewrite (exists_false _ _ Hno). reflexivity.
Qed.

Lemma decrypt_data_state (token : bytes) (s : state) :
  snd (decrypt_data token s) = s.
Proof.
  unfold decrypt_data, self_cipher, cipher_decrypt. monad_unfold.
  destruct (cipher (self s)) as [k|]; [|reflexivity].
  destruct (fernet_decrypt k token) as [m|]; [|reflexivity].
  destruct (utf8_decode m) as [t|]; [|reflexivity].
  destruct (json_loads t); reflexivity.
Qed.

Lemma decrypt_data_invalid (token : bytes) (s : state) :
  (forall k, cipher (self s) = Some k -> fernet_decrypt k token = None) ->
  exists e, decrypt_data token s = (Raise e, s).
Proof.
  intros Hk.
  unfold decrypt_data, self_cipher, cipher_decrypt. monad_unfold.
  destruct (cipher (self s)) as [k|]; [|eauto].
  rewrite (Hk k eq_refl). eauto.
Qed.

(** With a cipher in place, a token the cipher rejects makes
    [decrypt_data] raise [InvalidToken]: the failure the specification
    calls IntegrityViolation. *)
Lemma decrypt_data_InvalidToken (token k : bytes) (s : state) :
  cipher (self s) = Some k -> fernet_decrypt k token = None ->
  decrypt_data token s = (Raise InvalidToken, s).
Proof.
  intros Hc Hk.
  unfold decrypt_data, self_cipher, cipher_decrypt. monad_unfold.
  rewrite Hc. monad_unfold. rewrite Hk. reflexivity.
Qed.

Lemma load_data_state (s : state) : snd (load_data s) = s.
Proof.
  unfold load_data, os_path_exists, read_file. monad_unfold.
  destruct (bool_decide _); cbn [negb]; [|reflexivity]. monad_unfold.
  destruct (fs s !! data_file (self s)) as [f|]; [|reflexivity].
  destruct (readable f); [|reflexivity]. monad_unfold.
  pose proof (decrypt_data_state (f_data f) s) as Hd.
  destruct (decrypt_data (f_data f) s) as [[v|e] s']; exact Hd.
Qed.

(** [load_data] never raises. *)
Lemma load_data_total (s : state) : exists v, load_data s = (Ok v, s).
Proof.
  pose proof (load_data_state s) as Hs.
  unfold load_data in *. unfold try_except in *.
  match goal with
  | Hs : snd (let (_, _) := ?m in _) = _ |- _ => destruct m as [[v|e] s']
  end; cbn in Hs; subst; eauto.
Qed.

(** C1, as the code has it.  When the data file exists and its contents
    do not decrypt under the current key, [load_data] catches the failure
    and returns the empty record normally, the value it also returns when
    there is no file; nothing is raised and the state is unchanged. *)
Theorem load_data_undecryptable (s : state) (f : file) :
  fs s !! data_file (self s) = Some f ->
  (forall k, cipher (self s) = Some k -> fernet_decrypt k (f_data f) = None) ->
  load_data s = (Ok empty_record, s).
Proof.
  intros Hf Hk. unfold load_data, os_path_exists, read_file. monad_unfold.
  rewrite (exists_true _ _ _ Hf). cbn [negb]. monad_unfold.
  rewrite Hf.
  destruct (readable f); [|reflexivity]. monad_unfold.
  destruct (decrypt_data_invalid (f_data f) s Hk) as [e ->]. reflexivity.
Qed.

(** *** Encrypting and decrypting *)

Lemma encrypt_data_ok (data : json) (k plain : bytes) (s : state) :
  cipher (self s) = Some k ->
  utf8_encode (json_dumps data) = Ok plain ->
  encrypt_data data s
  = (Ok (fernet_encrypt k (clock s) (map (entropy s) (seq (cursor s) 16))
                        plain),
     set_cursor (cursor s + 16)%nat s).
Proof.
  intros Hc Hp.
  unfold encrypt_data, self_cipher, cipher_encrypt, datetime_now, os_urandom.
  monad_unfold. rewrite Hc. monad_unfold. rewrite Hp. reflexivity.
Qed.

Lemma decrypt_data_ok (token k plain : bytes) (text : str) (s : state) :
  cipher (self s) = Some k ->
  fernet_decrypt k token = Some plain ->
  utf8_decode plain = Ok text ->
  decrypt_data token s = (json_loads text, s).
Proof.
  intros Hc Hd Ht.
  unfold decrypt_data, self_cipher, cipher_decrypt. monad_unfold.
  rewrite Hc. monad_unfold. rewrite Hd. monad_unfold. rewrite Ht.
  destruct (json_loads text); reflexivity.
Qed.

(** C3.  Under a key [Fernet] accepts, encrypting a vault record of
    proper text succeeds, and decrypting the token with the same cipher
    gives back the record: [decrypt(encrypt(r, k), k) == r]. *)
Theorem decrypt_encrypt_roundtrip (s : state) (k : bytes)
  (notes last_modified : str) :
  cipher (self s) = Some k ->
  fernet_key_ok k = true ->
  valid_text notes = true ->
  valid_text last_modified = true ->
  exists token s',
    encrypt_data (vault_record notes last_modified) s = (Ok token, s')
    /\ decrypt_data token s' = (Ok (vault_record notes last_modified), s').
Proof.
  intros Hc Hk Hn Hm.
  set (r := vault_record notes last_modified).
  assert (Hascii : forallb is_ascii (json_dumps r) = true)
    by apply json_dumps_vault_record_ascii.
  eexists _, _. split.
  - apply (encrypt_data_ok r k (json_dumps r)); [exact Hc|].
    apply utf8_encode_ascii, Hascii.
  - rewrite (decrypt_data_ok _ k (json_dumps r) (json_dumps r)).
    + unfold r. rewrite json_loads_dumps_vault_record by assumption.
      reflexivity.
    + exact Hc.
    + apply fernet_decrypt_encrypt; [exact Hk|].
      rewrite length_map, length_seq. reflexivity.
    + apply utf8_decode_ascii, Hascii.
Qed.

(** *** Restoring *)

(** [restore_data] has two outcomes: it refuses and changes nothing, or
    the backup decrypted under the current key and was then copied over
    the data file. *)
Lemma restore_data_cases (backup_file : path) (s : state) :
  restore_data backup_file s = (Ok false, s)
  \/ exists f v,
       fs s !! backup_file = Some f
       /\ decrypt_data (f_data f) s = (Ok v, s)
       /\ restore_data backup_file s
          = (Ok true,
             set_fs (<[data_file (self s) := f]> (fs s))
                    (EvCopy backup_file (data_file (self s))) s).
Proof.
  destruct (fs s !! backup_file) as [f|] eqn:Hf;
    unfold restore_data, os_path_exists, read_file; monad_unfold.
  2:{ left. rewrite (exists_false _ _ Hf). reflexivity. }
  rewrite (exists_true _ _ _ Hf). cbn [negb]. monad_unfold. rewrite Hf.
  destruct (readable f) eqn:Hr; [|left; reflexivity]. monad_unfold.
  pose proof (decrypt_data_state (f_data f) s) as Hs.
  destruct (decrypt_data (f_data f) s) as [[v|e] s'] eqn:Hd;
    cbn in Hs; subst s'; [|left; reflexivity].
  unfold shutil_copy2. monad_unfold. rewrite Hf.
  destruct (bool_decide (backup_file = data_file (self s)));
    [left; reflexivity|].
  rewrite Hr. cbn [negb].
  destruct (fs s !! data_file (self s)) as [g|].
  - destruct (writable g); [|left; reflexivity].
    right. exists f, v. auto.
  - right. exists f, v. auto.
Qed.

(** C4.  A backup that is missing, or whose contents do not decrypt under
    the current key (damaged, or made under another key), is refused:
    [restore_data] returns [False] and the whole state, the live data file
    included, is as before.  The check precedes the copy. *)
Theorem restore_data_rejects (backup_file : path) (s : state) :
  (fs s !! backup_file = None
   \/ exists f, fs s !! backup_file = Some f
                /\ forall k, cipher (self s) = Some k ->
                             fernet_decrypt k (f_data f) = None) ->
  restore_data backup_file s = (Ok false, s).
Proof.
  intros Hbad.
  destruct (restore_data_cases backup_file s) as [Hr|(f & v & Hf & Hd & _)];
    [exact Hr|].
  exfalso. destruct Hbad as [Hno|(f' & Hf' & Hk)]; [congruence|].
  rewrite Hf in Hf'. injection Hf' as <-.
  destruct (decrypt_data_invalid (f_data f) s Hk) as [e He]. congruence.
Qed.

(** *** Key derivation *)

(** C8.  With the salt supplied, [derive_key_from_password] reads neither
    the entropy pool nor anything else of the state: whatever the state,
    the same password and salt give the same key (and the salt back), and
    the state is left as it was. *)
Theorem derive_key_deterministic (password : str) (salt : bytes)
  (s1 s2 : state) :
  fst (derive_key_from_password password (Some salt) s1)
  = fst (derive_key_from_password password (Some salt) s2)
  /\ snd (derive_key_from_password password (Some salt) s1) = s1.
Proof.
  unfold derive_key_from_password. monad_unfold.
  destruct (utf8_encode password); split; reflexivity.
Qed.

(** *** Construction *)

Lemma load_key_absent (s : state) :
  fs s !! key_file (self s) = None -> load_key s = (Ok None, s).
Proof.
  intros Hno. unfold load_key, os_path_exists. monad_unfold.
  rewrite (exists_false _ _ Hno). reflexivity.
Qed.


(** *** Key rotation *)

Lemma encrypt_data_cases (data : json) (s : state) :
  (exists e, encrypt_data data s = (Raise e, s))
  \/ exists token,
       encrypt_data data s = (Ok token, set_cursor (cursor s + 16)%nat s).
Proof.
  unfold encrypt_data, self_cipher, cipher_encrypt, datetime_now, os_urandom.
  monad_unfold.
  destruct (cipher (self s)) as [k|]; [|left; eauto]. monad_unfold.
  destruct (utf8_encode (json_dumps data)) as [plain|]; [|left; eauto].
  right. eauto.
Qed.

Lemma save_data_cases (data : json) (s : state) :
  (exists e s',
      save_data data s = (Raise e, s')
      /\ self s' = self s /\ fs s' = fs s /\ trace s' = trace s)
  \/ exists token s',
       save_data data s = (Ok tt, s')
       /\ self s' = self s
       /\ fs s' = <[data_file (self s) := File token mode_600]> (fs s)
       /\ trace s' = trace s ++ [EvWrite (data_file (self s)) token;
                                 EvChmod (data_file (self s)) mode_600].
Proof.
  unfold save_data. unfold try_except. rewrite run_bind.
  destruct (encrypt_data_cases data s) as [[e ->]|[token ->]].
  { left. eauto 10. }
  unfold write_file, os_chmod. monad_unfold.
  cbn [set_cursor self fs].
  destruct (fs s !! data_file (self s)) as [f|] eqn:Hf.
  - destruct (writable f); [|left; eauto 10].
    right. cbn [set_fs fs]. rewrite lookup_insert_eq.
    eexists _, _. split; [reflexivity|].
    cbn [set_fs self fs trace]. rewrite insert_insert_eq, <- app_assoc. auto.
  - right. cbn [set_fs fs]. rewrite lookup_insert_eq.
    eexists _, _. split; [reflexivity|].
    cbn [set_fs self fs trace]. rewrite insert_insert_eq, <- app_assoc. auto.
Qed.
(** The part of [change_encryption_key] from [Fernet(new_key)] on. *)
Lemma rotation_tail (key : bytes) (data : json) (s : state) :
  exists r s' rot,
    try_except
      (c ← Fernet key;
       modify (set_cipher (Some c));;
       save_key key;;
       save_data data;;
       mret true)
      (fun _ => mret false) s = (Ok r, s')
    /\ trace s' = trace s ++ rot
    /\ rotation_effects (key_file (self s)) (data_file (self s)) key r rot
    /\ (rot = [] -> fs s' = fs s)
    /\ (rot <> [] ->
        r = false ->
        fs s' = <[key_file (self s) := File key mode_600]> (fs s)).
Proof.
  unfold Fernet. destruct (fernet_key_ok key).
  2:{ erewrite try_bind_Raise by reflexivity.
      exists false, s, []. rewrite app_nil_r.
      repeat split; try constructor; congruence. }
  erewrite try_bind_Ok by reflexivity.
  erewrite try_bind_Ok by reflexivity.
  set (s1 := set_cipher (Some key) s).
  destruct (save_key_cases key s1) as [[e He]|(s2 & He & Hself & Hfs & Htr)].
  { erewrite try_bind_Raise by exact He.
    exists false, s1, []. rewrite app_nil_r.
    repeat split; try constructor; congruence. }
  erewrite try_bind_Ok by exact He.
  destruct (save_data_cases data s2)
    as [(e & s3 & Hd & Hself3 & Hfs3 & Htr3)
       |(token & s3 & Hd & Hself3 & Hfs3 & Htr3)].
  - erewrite try_bind_Raise by exact Hd.
    exists false, s3, [EvWrite (key_file (self s)) key;
                       EvChmod (key_file (self s)) mode_600].
    split; [reflexivity|].
    split; [rewrite Htr3, Htr; reflexivity|].
    split; [constructor|].
    split; [discriminate|].
    intros _ _. rewrite Hfs3, Hfs. reflexivity.
  - erewrite try_bind_Ok by exact Hd.
    exists true, s3, [EvWrite (key_file (self s)) key;
                      EvChmod (key_file (self s)) mode_600;
                      EvWrite (data_file (self s)) token;
                      EvChmod (data_file (self s)) mode_600].
    split; [reflexivity|].
    split; [rewrite Htr3, Htr, <- app_assoc, Hself; reflexivity|].
    split; [constructor|].
    split; discriminate.
Qed.
(** C2, as the code has it.  Every run of [change_encryption_key] returns
    normally, and its file-system effects are, in this order: the backup
    copy (when it succeeds), the write and chmod of the key file, the
    write and chmod of the data file.  The new key is on disk before the
    record is re-encrypted and written; a run that stops between the two
    returns [False] with the key file already holding the new key. *)
Theorem change_encryption_key_order (new_key : option bytes) (s : state) :
  let kf := key_file (self s) in
  let df := data_file (self s) in
  let key := match new_key with
             | Some k => k
             | None => fernet_generate_key
                         (map (entropy s) (seq (cursor s) 32))
             end in
  exists r s' bk rot,
    change_encryption_key new_key s = (Ok r, s')
    /\ trace s' = trace s ++ bk ++ rot
    /\ (bk = [] \/ bk = [EvCopy df (default_backup_file s)])
    /\ rotation_effects kf df key r rot
    /\ (rot <> [] -> r = false -> fs s' !! kf = Some (File key mode_600)).
Proof.
  intros kf df key. unfold change_encryption_key.
  destruct (load_data_total s) as [v Hv].
  erewrite try_bind_Ok by exact Hv. cbv beta.
  assert (Hafter : exists s1 bk,
             backup_data None s = (Ok (bool_decide (bk <> [])), s1)
             /\ self s1 = self s /\ cursor s1 = cursor s
             /\ entropy s1 = entropy s
             /\ trace s1 = trace s ++ bk
             /\ (bk = [] \/ bk = [EvCopy df (default_backup_file s)])).
  { destruct (backup_data_cases s) as [Hb|(f & _ & Hb)].
    - exists s, []. rewrite app_nil_r. auto 10.
    - eexists _, [_]. split; [exact Hb|]. cbn. auto 10. }
  destruct Hafter as (s1 & bk & Hb & Hself & Hcur & Hent & Htr & Hbk).
  erewrite try_bind_Ok by exact Hb. cbv beta.
  assert (Hkey : exists s2,
             match new_key with
             | Some k => mret k
             | None => generate_key
             end s1 = (Ok key, s2)
             /\ self s2 = self s /\ trace s2 = trace s1).
  { subst key. destruct new_key as [k|].
    - exists s1. auto.
    - eexists. split.
      + unfold generate_key, os_urandom. monad_unfold.
        rewrite Hcur, Hent. reflexivity.
      + cbn. auto. }
  destruct Hkey as (s2 & Hk & Hself2 & Htr2).
  erewrite try_bind_Ok by exact Hk. cbv beta.
  destruct (rotation_tail key v s2) as (r & s' & rot & Hrun & Htr' & Heff & _ & Hfs).
  exists r, s', bk, rot.
  split; [exact Hrun|].
  split; [rewrite Htr', Htr2, Htr, app_assoc; reflexivity|].
  split; [exact Hbk|].
  rewrite Hself2 in Heff, Hfs.
  split; [exact Heff|].
  intros Hne Hr. rewrite (Hfs Hne Hr). apply lookup_insert_eq.
Qed.

End VaultProperties.

(** C7 at the first run: no file at all. *)
Lemma load_data_absent_witness :
  @load_data toy_cryptography fresh_vault = (Ok empty_record, fresh_vault).
Proof.
  apply (@load_data_absent toy_cryptography fresh_vault).
  vm_compute. reflexivity.
Defined.

(** C1 does not hold on a data file cut to three bytes.  The file
    exists, [decrypt_data] raises [InvalidToken] on its contents, and
    [load_data] still returns the empty record, exactly what it returns
    for the vault that has no data file. *)
Lemma load_data_swallows_tampering :
  fs tampered_vault !! "vault_data.json"%string
  = Some (File [1; 2; 3] mode_600)
  /\ fst (@decrypt_data toy_cryptography [1; 2; 3] tampered_vault)
     = Raise InvalidToken
  /\ fst (@load_data toy_cryptography tampered_vault) = Ok empty_record
  /\ fst (@load_data toy_cryptography tampered_vault)
     = fst (@load_data toy_cryptography fresh_vault).
Proof. vm_compute. repeat split; reflexivity. Qed.

Lemma load_data_undecryptable_witness :
  @load_data toy_cryptography tampered_vault
  = (Ok empty_record, tampered_vault).
Proof.
  apply (@load_data_undecryptable toy_cryptography tampered_vault
           (File [1; 2; 3] mode_600)).
  - vm_compute. reflexivity.
  - intros k Hk. vm_compute in Hk. injection Hk as <-.
    vm_compute. reflexivity.
Defined.

Lemma decrypt_encrypt_roundtrip_witness :
  exists token s',
    @encrypt_data toy_cryptography sample_record fresh_vault = (Ok token, s')
    /\ @decrypt_data toy_cryptography token s' = (Ok sample_record, s').
Proof.
  apply (@decrypt_encrypt_roundtrip toy_cryptography fresh_vault
           (urlsafe_b64encode (map entropy0 (seq 0 32)))
           (lit "hi") (lit "2025-01-01 12:00:00"));
    vm_compute; reflexivity.
Defined.

(** Without a salt the derived key depends on the entropy pool: the
    same password gives different salts, hence keys, at different
    positions of the pool. *)
Example derive_key_fresh_salt :
  fst (@derive_key_from_password toy_cryptography (lit "pw") None boot)
  = Ok (urlsafe_b64encode
          (toy_pbkdf2 32 (map entropy0 (seq 0 16)) 100000 (lit "pw")),
        map entropy0 (seq 0 16))
  /\ fst (@derive_key_from_password toy_cryptography (lit "pw") None
            fresh_vault)
     = Ok (urlsafe_b64encode
             (toy_pbkdf2 32 (map entropy0 (seq 32 16)) 100000 (lit "pw")),
           map entropy0 (seq 32 16)).
Proof. vm_compute. split; reflexivity. Qed.

(** C4 on a backup made under another key. *)
Lemma restore_data_rejects_witness :
  @restore_data toy_cryptography "old.backup" foreign_backup_vault
  = (Ok false, foreign_backup_vault).
Proof.
  apply (@restore_data_rejects toy_cryptography). right.
  exists (File (toy_encrypt other_key (DateTime 2024 6 1 8 0 0) (repeat 9 16)
                            (lit "{}")) mode_600).
  split; [vm_compute; reflexivity|].
  intros k Hk. vm_compute in Hk. injection Hk as <-.
  vm_compute. reflexivity.
Defined.


(** When the key file is lost, construction makes a new key without
    complaint; the ciphertext written under the old key stays on disk and
    no longer decrypts, so [load_data] reports an empty vault. *)
Example init_orphans_ciphertext :
  let s' := snd (@VaultEncryptor_init toy_cryptography "secret.key"
                                      "vault_data.json" orphaned_vault) in
  fst (@VaultEncryptor_init toy_cryptography "secret.key" "vault_data.json"
                            orphaned_vault) = Ok tt
  /\ fs s' !! "vault_data.json"%string
     = fs saved_vault !! "vault_data.json"%string
  /\ @reopen_and_decrypt toy_cryptography orphaned_vault = Raise InvalidToken
  /\ fst (@load_data toy_cryptography s') = Ok empty_record.
Proof. vm_compute. repeat split; reflexivity. Qed.

(** C9 on the saved vault. *)
Lemma backup_data_default_witness :
  code_backup_name "vault_data.json" "vault_data.json.backup_20250101_120000"
  = true
  /\ fst (backup_data None saved_vault) = Ok true.
Proof.
  destruct (proj2 (backup_data_default saved_vault)
              (File (f_data (default (File [] 0)
                               (fs saved_vault !! "vault_data.json"%string)))
                    mode_600))
    as [Hname Hrun].
  - vm_compute. reflexivity.
  - vm_compute. reflexivity.
  - vm_compute. reflexivity.
  - intros g Hg. vm_compute in Hg. discriminate Hg.
  - split; [exact Hname|]. rewrite Hrun. reflexivity.
Defined.

(** C9 does not hold on the saved vault at 2025-01-01 12:00:00.  The
    backup succeeds, and the copy is at
    [vault_data.json.backup_20250101_120000], which is not of the form
    [<original>.backup_<YYYYMMDDHHMMSS>]; no file of that form exists
    afterwards.  And on a data file the owner may not read, the file
    exists and the call returns [False]. *)
Lemma backup_name_has_underscore :
  let s' := snd (backup_data None saved_vault) in
  fst (backup_data None saved_vault) = Ok true
  /\ trace s'
     = trace saved_vault
       ++ [EvCopy "vault_data.json" "vault_data.json.backup_20250101_120000"]
  /\ spec_backup_name "vault_data.json"
                      "vault_data.json.backup_20250101_120000" = false
  /\ filter (spec_backup_name "vault_data.json")
            (map fst (map_to_list (fs s'))) = []
  /\ bool_decide (is_Some (fs unreadable_vault !! "vault_data.json"%string))
     = true
  /\ backup_data None unreadable_vault = (Ok false, unreadable_vault).
Proof. vm_compute. repeat split; reflexivity. Qed.

(** C2 does not hold on the saved vault.  In a run that succeeds, the
    key file is written before the data file.  In a run on a data file
    the owner may only read, the data write fails after the key file has
    been replaced: the call returns [False], the key file holds the new
    key, the data file still holds the old ciphertext, and a fresh
    process on these files can no longer decrypt it, while it could
    before. *)
Lemma rotation_replaces_key_first :
  let run := @change_encryption_key toy_cryptography (Some other_key) in
  fst (run saved_vault) = Ok true
  /\ (exists token,
        trace (snd (run saved_vault))
        = trace saved_vault
          ++ [EvCopy "vault_data.json"
                     "vault_data.json.backup_20250101_120000";
              EvWrite "secret.key" other_key;
              EvChmod "secret.key" mode_600;
              EvWrite "vault_data.json" token;
              EvChmod "vault_data.json" mode_600])
  /\ fst (run readonly_vault) = Ok false
  /\ trace (snd (run readonly_vault))
     = trace readonly_vault
       ++ [EvCopy "vault_data.json" "vault_data.json.backup_20250101_120000";
           EvWrite "secret.key" other_key;
           EvChmod "secret.key" mode_600]
  /\ fs (snd (run readonly_vault)) !! "secret.key"%string
     = Some (File other_key mode_600)
  /\ fs (snd (run readonly_vault)) !! "vault_data.json"%string
     = fs readonly_vault !! "vault_data.json"%string
  /\ @reopen_and_decrypt toy_cryptography readonly_vault = Ok sample_record
  /\ @reopen_and_decrypt toy_cryptography (snd (run readonly_vault))
     = Raise InvalidToken.
Proof.
  vm_compute. repeat split; try reflexivity.
  eexists. reflexivity.
Qed.

(** ** The face-match gate *)

Section FaceProperties.
Variable Dist : Type.
Variable norm_diff : encoding -> encoding -> Dist.
Variable dist_le : Dist -> Q -> bool.

(** One detected face matches when some known face is within tolerance. *)
Lemma any_within (fa : FaceAuthenticator) (e : encoding) :
  existsb id (map (fun d => dist_le d (tolerance fa))
                  (face_distance Dist norm_diff (known_face_encodings fa) e))
  = true
  <-> exists r, In r (known_face_encodings fa)
                /\ dist_le (norm_diff r e) (tolerance fa) = true.
Proof.
  unfold face_distance. rewrite existsb_exists. split.
  - intros (b & Hin & Hb). destruct b; [|discriminate].
    apply in_map_iff in Hin as (d & Hd & Hin).
    apply in_map_iff in Hin as (r & <- & Hr). eauto.
  - intros (r & Hr & Hle). exists true. split; [|reflexivity].
    apply in_map_iff. exists (norm_diff r e). split; [exact Hle|].
    apply in_map_iff. eauto.
Qed.

Lemma verify_each_iff (fa : FaceAuthenticator) (encs : list encoding) :
  verify_each Dist norm_diff dist_le fa encs = true
  <-> exists e r, In e encs /\ In r (known_face_encodings fa)
                  /\ dist_le (norm_diff r e) (tolerance fa) = true.
Proof.
  induction encs as [|e encs IH]; cbn [verify_each].
  - split; [discriminate|]. intros (e & r & [] & _).
  - destruct (existsb id _) eqn:He.
    + split; [|reflexivity]. intros _.
      apply any_within in He as (r & Hr & Hle). exists e, r. cbn. auto.
    + rewrite IH. split.
      * intros (e' & r & He' & Hr). exists e', r. cbn. tauto.
      * intros (e' & r & [<-|He'] & Hr & Hle).
        -- assert (Ht : existsb id
                          (map (fun d => dist_le d (tolerance fa))
                             (face_distance Dist norm_diff
                                (known_face_encodings fa) e)) = true)
             by (apply any_within; eauto).
           congruence.
        -- eauto.
Qed.

(** A frame with several faces matches when any of them does. *)
Lemma verify_face_iff (fa : FaceAuthenticator) (encs : list encoding) :
  verify_face Dist norm_diff dist_le fa (Some encs) = true
  <-> exists e r, In e encs /\ In r (known_face_encodings fa)
                  /\ dist_le (norm_diff r e) (tolerance fa) = true.
Proof.
  unfold verify_face.
  destruct (known_face_encodings fa) as [|k known] eqn:Hk.
  - split; [discriminate|]. intros (e & r & _ & [] & _).
  - destruct encs as [|e encs].
    + split; [discriminate|]. intros (e & r & [] & _).
    + rewrite verify_each_iff, Hk. reflexivity.
Qed.


(** C6.  In a session that is still running (attempts below the limit, no
    timeout at this tick), a frame in which no face is detected sets the
    consecutive-match counter to 0 and leaves the attempts counter as it
    was; the pass ends in neither a return nor a break, and the loop goes
    on to the next tick with its condition still true. *)
Theorem no_face_resets_streak_only (fa : FaceAuthenticator) (start_time : Q)
  (st : session) (tk : tick) (rest : list tick) :
  (attempts st < max_attempts fa)%nat ->
  Qlt_bool (timeout_seconds fa) (now tk - start_time) = false ->
  frame tk = Some None ->
  let st' := mkSession (attempts st) 0 in
  loop_body Dist norm_diff dist_le fa start_time st tk = Next st'
  /\ (attempts st' < max_attempts fa)%nat
  /\ while_loop Dist norm_diff dist_le fa start_time st (tk :: rest)
     = while_loop Dist norm_diff dist_le fa start_time st' rest.
Proof.
  intros Hatt Htime Hframe st'.
  assert (Hbody : loop_body Dist norm_diff dist_le fa start_time st tk
                  = Next st').
  { unfold loop_body. rewrite Htime, Hframe. reflexivity. }
  split; [exact Hbody|]. split; [exact Hatt|].
  cbn [while_loop]. rewrite Hbody.
  apply Nat.ltb_lt in Hatt. rewrite Hatt. reflexivity.
Qed.

End FaceProperties.

(** [sqrt_le d2 tol] decides [sqrt d2 <= tol] for a squared distance. *)
Lemma sqrt_le_spec (d2 tol : Q) :
  sqrt_le d2 tol = true <-> (0 <= tol /\ d2 <= tol * tol)%Q.
Proof.
  unfold sqrt_le. rewrite andb_true_iff, !Qle_bool_iff. reflexivity.
Qed.

(** Over exact geometry: one observed face matches exactly when some
    reference lies at Euclidean distance at most the tolerance. *)
Lemma euclid_verify_face_iff (fa : FaceAuthenticator) (observed : encoding) :
  euclid_verify_face fa (Some [observed]) = true
  <-> exists r, In r (known_face_encodings fa)
                /\ (0 <= tolerance fa)%Q
                /\ (sq_dist r observed <= tolerance fa * tolerance fa)%Q.
Proof.
  unfold euclid_verify_face. rewrite verify_face_iff. split.
  - intros (e & r & [<-|[]] & Hr & Hle). apply sqrt_le_spec in Hle. eauto.
  - intros (r & Hr & Hle). exists observed, r.
    split; [left; reflexivity|]. split; [exact Hr|].
    apply sqrt_le_spec. exact Hle.
Qed.


(** Just beyond the threshold there is no match. *)
Example verify_face_beyond_threshold :
  euclid_verify_face enrolled (Some [[601 # 1000; 0]%Q]) = false.
Proof. vm_compute. reflexivity. Qed.

(** C6 in the middle of a session: one attempt used, two matches in a
    row, then a frame without a face. *)
Lemma no_face_resets_streak_only_witness :
  loop_body Q sq_dist sqrt_le enrolled 0 (mkSession 1 2) (NO_FACE 5)
  = Next (mkSession 1 0).
Proof.
  apply (no_face_resets_streak_only Q sq_dist sqrt_le enrolled 0
           (mkSession 1 2) (NO_FACE 5) []).
  - cbn. lia.
  - vm_compute. reflexivity.
  - reflexivity.
Defined.

(** The scenarios of the specification. *)
Example scenario_A :
  euclid_authenticate enrolled true 0 [MATCH 1; MATCH 2; MATCH 3]
  = Some (true, "Authentication successful"%string).
Proof. vm_compute. reflexivity. Qed.

Example scenario_B :
  euclid_authenticate enrolled true 0 [MISMATCH 1; MISMATCH 2; MISMATCH 3]
  = Some (false, "Authentication failed: Maximum attempts exceeded"%string).
Proof. vm_compute. reflexivity. Qed.

Example scenario_C :
  euclid_authenticate enrolled true 0
    [MATCH 1; MATCH 2; MISMATCH 3; MATCH 4; MATCH 5; MATCH 6]
  = Some (true, "Authentication successful"%string).
Proof. vm_compute. reflexivity. Qed.

Example scenario_D :
  euclid_authenticate enrolled true 0 [MATCH 11]
  = Some (false, "Authentication failed: Timeout"%string).
Proof. vm_compute. reflexivity. Qed.

(** Frames without a face use up no attempt: any number of them, then
    three matches, is accepted. *)
Example scenario_no_face :
  euclid_authenticate enrolled true 0
    [NO_FACE 1; NO_FACE 2; NO_FACE 3; NO_FACE 4; MATCH 5; MATCH 6; MATCH 7]
  = Some (true, "Authentication successful"%string).
Proof. vm_compute. reflexivity. Qed.

(** ** The rest of the vault *)

Lemma mode_600_readable (d : bytes) : readable (File d mode_600) = true.
Proof. reflexivity. Qed.

Lemma mode_600_writable (d : bytes) : writable (File d mode_600) = true.
Proof. reflexivity. Qed.

(** *** Explicit outcomes of the writing methods *)

Lemma save_key_success (key : bytes) (s : state) :
  (forall f, fs s !! key_file (self s) = Some f -> writable f = true) ->
  exists s',
    save_key key s = (Ok tt, s')
    /\ self s' = self s
    /\ fs s' = <[key_file (self s) := File key mode_600]> (fs s)
    /\ trace s' = trace s ++ [EvWrite (key_file (self s)) key;
                              EvChmod (key_file (self s)) mode_600]
    /\ cursor s' = cursor s /\ entropy s' = entropy s /\ clock s' = clock s.
Proof.
  intros Hw. unfold save_key, write_file, os_chmod. monad_unfold.
  destruct (fs s !! key_file (self s)) as [f|] eqn:Hf.
  - rewrite (Hw f eq_refl). cbn [set_fs fs]. rewrite lookup_insert_eq.
    eexists. split; [reflexivity|].
    cbn [set_fs self fs trace cursor entropy clock].
    rewrite insert_insert_eq, <- app_assoc. auto 10.
  - cbn [set_fs fs]. rewrite lookup_insert_eq.
    eexists. split; [reflexivity|].
    cbn [set_fs self fs trace cursor entropy clock].
    rewrite insert_insert_eq, <- app_assoc. auto 10.
Qed.

Lemma save_key_failure (key : bytes) (s : state) (f : file) :
  fs s !! key_file (self s) = Some f -> writable f = false ->
  save_key key s = (Raise PermissionError, s).
Proof.
  intros Hf Hw. unfold save_key, write_file. monad_unfold.
  rewrite Hf, Hw. reflexivity.
Qed.

Section Persistence.
Context `{Cryptography}.

Lemma save_data_success (data : json) (k plain : bytes) (s : state) :
  cipher (self s) = Some k ->
  utf8_encode (json_dumps data) = Ok plain ->
  (forall f, fs s !! data_file (self s) = Some f -> writable f = true) ->
  let token := fernet_encrypt k (clock s)
                 (map (entropy s) (seq (cursor s) 16)) plain in
  exists s',
    save_data data s = (Ok tt, s')
    /\ self s' = self s
    /\ fs s' = <[data_file (self s) := File token mode_600]> (fs s)
    /\ trace s' = trace s ++ [EvWrite (data_file (self s)) token;
                              EvChmod (data_file (self s)) mode_600].
Proof.
  intros Hc Hp Hw token. unfold save_data. unfold try_except.
  rewrite run_bind, (encrypt_data_ok data k plain s Hc Hp).
  fold token. unfold write_file, os_chmod. monad_unfold.
  cbn [set_cursor self fs].
  destruct (fs s !! data_file (self s)) as [f|] eqn:Hf.
  - rewrite (Hw f eq_refl). cbn [set_fs fs]. rewrite lookup_insert_eq.
    eexists. split; [reflexivity|].
    cbn [set_fs self fs trace]. rewrite insert_insert_eq, <- app_assoc. auto.
  - cbn [set_fs fs]. rewrite lookup_insert_eq.
    eexists. split; [reflexivity|].
    cbn [set_fs self fs trace]. rewrite insert_insert_eq, <- app_assoc. auto.
Qed.

Lemma load_data_ok (s : state) (f : file) (v : json) :
  fs s !! data_file (self s) = Some f ->
  readable f = true ->
  decrypt_data (f_data f) s = (Ok v, s) ->
  load_data s = (Ok v, s).
Proof.
  intros Hf Hr Hd. unfold load_data, os_path_exists, read_file. monad_unfold.
  rewrite (exists_true _ _ _ Hf). cbn [negb]. monad_unfold.
  rewrite Hf, Hr. monad_unfold. rewrite Hd. reflexivity.
Qed.

(** A token made under key [k] from the text of a vault record decrypts
    to that record wherever [k] is the cipher. *)
Lemma decrypt_data_of_token (s : state) (k : bytes) (t : datetime)
  (iv : bytes) (n m : str) :
  cipher (self s) = Some k ->
  fernet_key_ok k = true ->
  length iv = 16%nat ->
  valid_text n = true -> valid_text m = true ->
  decrypt_data (fernet_encrypt k t iv (json_dumps (vault_record n m))) s
  = (Ok (vault_record n m), s).
Proof.
  intros Hc Hk Hiv Hn Hm.
  rewrite (decrypt_data_ok _ k (json_dumps (vault_record n m))
             (json_dumps (vault_record n m))).
  - rewrite json_loads_dumps_vault_record by assumption. reflexivity.
  - exact Hc.
  - apply fernet_decrypt_encrypt; assumption.
  - apply utf8_decode_ascii, json_dumps_vault_record_ascii.
Qed.


End Persistence.


Lemma get_file_info_run (s : state) :
  get_file_info s
  = (Ok (mkEncryptorInfo
           (mkFileInfo (key_file (self s))
              (bool_decide (is_Some (fs s !! key_file (self s))))
              (match fs s !! key_file (self s) with
               | Some f => length (f_data f)
               | None => 0%nat
               end))
           (mkFileInfo (data_file (self s))
              (bool_decide (is_Some (fs s !! data_file (self s))))
              (match fs s !! data_file (self s) with
               | Some f => length (f_data f)
               | None => 0%nat
               end))
           (bool_decide (is_Some (cipher (self s))))), s).
Proof.
  unfold get_file_info, os_path_exists, os_path_getsize. monad_unfold.
  destruct (fs s !! key_file (self s)) as [f|] eqn:Hf;
    destruct (fs s !! data_file (self s)) as [g|] eqn:Hg;
    repeat (cbn -[lookup]; rewrite ?Hf, ?Hg); reflexivity.
Qed.

Section Construction.
Context `{Cryptography}.

Lemma init_unfold (kf df : path) (s : state) :
  VaultEncryptor_init kf df s = load_or_generate_key (reset_self kf df s).
Proof. reflexivity. Qed.

Lemma load_key_readable (s : state) (f : file) :
  fs s !! key_file (self s) = Some f -> readable f = true ->
  load_key s = (Ok (Some (f_data f)), s).
Proof.
  intros Hf Hr. unfold load_key, os_path_exists, read_file. monad_unfold.
  rewrite (exists_true _ _ _ Hf). cbn [negb]. monad_unfold.
  rewrite Hf, Hr. reflexivity.
Qed.

Lemma load_key_unreadable (s : state) (f : file) :
  fs s !! key_file (self s) = Some f -> readable f = false ->
  load_key s = (Ok None, s).
Proof.
  intros Hf Hr. unfold load_key, os_path_exists, read_file. monad_unfold.
  rewrite (exists_true _ _ _ Hf). cbn [negb]. monad_unfold.
  rewrite Hf, Hr. reflexivity.
Qed.

(** Construction over a key file that can be read: its contents are the
    key, or construction fails. *)
Lemma init_readable_key (kf df : path) (s : state) (f : file) :
  fs s !! kf = Some f ->
  readable f = true ->
  VaultEncryptor_init kf df s
  = if fernet_key_ok (f_data f)
    then (Ok tt, set_cipher (Some (f_data f)) (reset_self kf df s))
    else (Raise ValueError, reset_self kf df s).
Proof.
  intros Hf Hr. rewrite init_unfold.
  unfold load_or_generate_key. unfold try_except.
  rewrite run_bind, (load_key_readable (reset_self kf df s) f Hf Hr).
  unfold Fernet. monad_unfold.
  destruct (fernet_key_ok (f_data f)); reflexivity.
Qed.

(** X3.  Where the key file exists, can be read and holds a key that
    [Fernet] accepts, the constructor takes that key as it is: it writes
    nothing, draws no entropy, and returns normally. *)
Theorem init_loads_existing_key (kf df : path) (s : state) (f : file) :
  fs s !! kf = Some f ->
  readable f = true ->
  fernet_key_ok (f_data f) = true ->
  VaultEncryptor_init kf df s
  = (Ok tt, set_cipher (Some (f_data f)) (reset_self kf df s)).
Proof.
  intros Hf Hr Hk. rewrite (init_readable_key kf df s f Hf Hr), Hk.
  reflexivity.
Qed.

(** X4.  Where the key file can be read but holds no key that [Fernet]
    accepts, the constructor raises ([ValueError] from [Fernet]); it
    neither repairs nor replaces the file, and no cipher is set. *)
Theorem init_rejects_corrupt_key (kf df : path) (s : state) (f : file) :
  fs s !! kf = Some f ->
  readable f = true ->
  fernet_key_ok (f_data f) = false ->
  VaultEncryptor_init kf df s = (Raise ValueError, reset_self kf df s).
Proof.
  intros Hf Hr Hk. rewrite (init_readable_key kf df s f Hf Hr), Hk.
  reflexivity.
Qed.

(** What construction does when [load_key] comes back empty-handed. *)
Lemma init_generates (kf df : path) (s : state) :
  load_key (reset_self kf df s) = (Ok None, reset_self kf df s) ->
  (forall f, fs s !! kf = Some f -> writable f = true) ->
  let key := fernet_generate_key (map (entropy s) (seq (cursor s) 32)) in
  exists s',
    VaultEncryptor_init kf df s = (Ok tt, s')
    /\ self s' = mkVaultEncryptor kf df (Some key)
    /\ fs s' = <[kf := File key mode_600]> (fs s)
    /\ trace s' = trace s ++ [EvWrite kf key; EvChmod kf mode_600].
Proof.
  intros Hload Hw key. rewrite init_unfold.
  unfold load_or_generate_key. unfold try_except.
  rewrite run_bind, Hload. cbv beta iota.
  rewrite run_bind. rewrite run_bind.
  unfold generate_key at 1. rewrite run_bind.
  unfold os_urandom at 1. cbv beta iota.
  change (map (entropy (reset_self kf df s))
              (seq (cursor (reset_self kf df s)) 32)) with
    (map (entropy s) (seq (cursor s) 32)).
  fold key. unfold mret at 1, M_ret at 1, ret at 1. cbv beta iota.
  rewrite run_bind.
  destruct (save_key_success key
              (set_cursor (cursor (reset_self kf df s) + 32)%nat
                          (reset_self kf df s)))
    as (s1 & Hsave & Hself & Hfs & Htr & _).
  { exact Hw. }
  rewrite Hsave. cbv beta iota.
  unfold mret at 1, M_ret at 1, ret at 1. cbv beta iota.
  unfold Fernet.
  assert (Hok : fernet_key_ok key = true).
  { apply fernet_generate_key_ok. rewrite length_map, length_seq.
    reflexivity. }
  rewrite Hok. monad_unfold.
  eexists. split; [reflexivity|].
  cbn [set_cipher self fs trace key_file data_file].
  rewrite Hself, Hfs, Htr. auto.
Qed.

(** X5.  Where the key file exists but the owner may not read it (and may
    write it), the constructor does not fail: [load_key] swallows the
    error, a new key is generated, and the old key file is overwritten
    with it. *)
Theorem init_overwrites_unreadable_key (kf df : path) (s : state) (f : file) :
  fs s !! kf = Some f ->
  readable f = false ->
  writable f = true ->
  let key := fernet_generate_key (map (entropy s) (seq (cursor s) 32)) in
  exists s',
    VaultEncryptor_init kf df s = (Ok tt, s')
    /\ cipher (self s') = Some key
    /\ fs s' = <[kf := File key mode_600]> (fs s).
Proof.
  intros Hf Hr Hw key.
  destruct (init_generates kf df s) as (s' & Hrun & Hself & Hfs & _).
  - apply (load_key_unreadable (reset_self kf df s) f Hf Hr).
  - intros g Hg. rewrite Hf in Hg. injection Hg as <-. exact Hw.
  - exists s'. rewrite Hself. auto.
Qed.

(** X6.  Whenever the constructor returns normally, the object has a
    cipher, its key is one [Fernet] accepts and is exactly what the key
    file now holds, and [get_file_info] reports the cipher as initialised
    and the key file as present with the key's length. *)
Theorem init_establishes_cipher (kf df : path) (s s' : state) :
  VaultEncryptor_init kf df s = (Ok tt, s') ->
  exists k mode info,
    cipher (self s') = Some k
    /\ fernet_key_ok k = true
    /\ key_file (self s') = kf /\ data_file (self s') = df
    /\ fs s' !! kf = Some (File k mode)
    /\ get_file_info s' = (Ok info, s')
    /\ cipher_initialized info = true
    /\ info_exists (info_key_file info) = true
    /\ info_size (info_key_file info) = length k.
Proof.
  intros Hrun.
  assert (Hmain : exists k mode,
             self s' = mkVaultEncryptor kf df (Some k)
             /\ fernet_key_ok k = true
             /\ fs s' !! kf = Some (File k mode)).
  { destruct (fs s !! kf) as [f|] eqn:Hf.
    - destruct (readable f) eqn:Hr.
      + destruct (fernet_key_ok (f_data f)) eqn:Hk.
        * rewrite (init_readable_key kf df s f Hf Hr), Hk in Hrun.
          injection Hrun as <-. exists (f_data f), (f_mode f).
          split; [reflexivity|]. split; [exact Hk|].
          cbn. rewrite Hf. destruct f; reflexivity.
        * rewrite (init_readable_key kf df s f Hf Hr), Hk in Hrun.
          discriminate Hrun.
      + destruct (writable f) eqn:Hw.
        * destruct (init_generates kf df s) as (s1 & Hrun1 & Hself & Hfs & _).
          { apply (load_key_unreadable (reset_self kf df s) f Hf Hr). }
          { intros g Hg. rewrite Hf in Hg. injection Hg as <-. exact Hw. }
          rewrite Hrun1 in Hrun. injection Hrun as <-.
          eexists _, mode_600. split; [exact Hself|].
          split; [apply fernet_generate_key_ok;
                  rewrite length_map, length_seq; reflexivity|].
          rewrite Hfs. apply lookup_insert_eq.
        * exfalso. rewrite init_unfold in Hrun.
          unfold load_or_generate_key in Hrun. unfold try_except in Hrun.
          rewrite run_bind,
            (load_key_unreadable (reset_self kf df s) f Hf Hr) in Hrun.
          cbv beta iota in Hrun.
          rewrite run_bind, run_bind in Hrun.
          unfold generate_key at 1 in Hrun. rewrite run_bind in Hrun.
          unfold os_urandom at 1 in Hrun. cbv beta iota in Hrun.
          unfold mret at 1, M_ret at 1, ret at 1 in Hrun.
          cbv beta iota in Hrun. rewrite run_bind in Hrun.
          erewrite save_key_failure in Hrun; [discriminate Hrun| |exact Hw].
          exact Hf.
    - destruct (init_generates kf df s) as (s1 & Hrun1 & Hself & Hfs & _).
      { apply load_key_absent. exact Hf. }
      { intros g Hg. rewrite Hf in Hg. discriminate Hg. }
      rewrite Hrun1 in Hrun. injection Hrun as <-.
      eexists _, mode_600. split; [exact Hself|].
      split; [apply fernet_generate_key_ok;
              rewrite length_map, length_seq; reflexivity|].
      rewrite Hfs. apply lookup_insert_eq. }
  destruct Hmain as (k & mode & Hself & Hk & Hfile).
  exists k, mode. eexists.
  rewrite get_file_info_run. rewrite Hself. cbn [key_file data_file cipher].
  rewrite Hfile.
  repeat split; try reflexivity; try assumption.
Qed.

End Construction.

Section Integrity.
Context `{Cryptography}.

(** [load_data] returns the empty record, or what [decrypt_data] makes of
    the data file. *)
Lemma load_data_cases (s : state) :
  load_data s = (Ok empty_record, s)
  \/ exists f v,
       fs s !! data_file (self s) = Some f
       /\ readable f = true
       /\ decrypt_data (f_data f) s = (Ok v, s)
       /\ load_data s = (Ok v, s).
Proof.
  destruct (fs s !! data_file (self s)) as [f|] eqn:Hf;
    unfold load_data, os_path_exists, read_file; monad_unfold.
  2:{ left. rewrite (exists_false _ _ Hf). reflexivity. }
  rewrite (exists_true _ _ _ Hf). cbn [negb]. monad_unfold. rewrite Hf.
  destruct (readable f) eqn:Hr; [|left; reflexivity]. monad_unfold.
  pose proof (decrypt_data_state (f_data f) s) as Hs.
  destruct (decrypt_data (f_data f) s) as [[v|e] s'] eqn:Hd;
    cbn in Hs; subst s'; [|left; reflexivity].
  right. exists f, v. auto.
Qed.

Lemma load_data_fallback (s : state) (f : file) :
  fs s !! data_file (self s) = Some f ->
  (readable f = false
   \/ forall k, cipher (self s) = Some k ->
                fernet_decrypt k (f_data f) = None) ->
  load_data s = (Ok empty_record, s).
Proof.
  intros Hf Hbad.
  destruct (load_data_cases s) as [Hl|(g & v & Hg & Hr & Hd & _)];
    [exact Hl|].
  exfalso. rewrite Hf in Hg. injection Hg as <-.
  destruct Hbad as [Hnr|Hk]; [congruence|].
  destruct (decrypt_data_invalid (f_data f) s Hk) as [e He]. congruence.
Qed.

(** X7.  [verify_data_integrity] answers [True] not only when there is no
    data file but also when the data file cannot be read or does not
    decrypt under the current key: [load_data] hands it the empty record,
    which has both required fields. *)
Theorem verify_data_integrity_blind (s : state) :
  (fs s !! data_file (self s) = None
   \/ exists f, fs s !! data_file (self s) = Some f
                /\ (readable f = false
                    \/ forall k, cipher (self s) = Some k ->
                                 fernet_decrypt k (f_data f) = None)) ->
  verify_data_integrity s = (Ok true, s).
Proof.
  intros [Hno|(f & Hf & Hbad)];
    unfold verify_data_integrity, os_path_exists; monad_unfold.
  - rewrite (exists_false _ _ Hno). reflexivity.
  - rewrite (exists_true _ _ _ Hf). cbn [negb]. monad_unfold.
    rewrite (load_data_fallback s f Hf Hbad). reflexivity.
Qed.

(** X8.  On a data file that decrypts to a JSON value, the verdict of
    [verify_data_integrity] is exactly whether that value is an object
    with the keys [notes] and [last_modified]; the values under the keys
    are not looked at. *)
Theorem verify_data_integrity_schema (s : state) (f : file) (v : json) :
  fs s !! data_file (self s) = Some f ->
  readable f = true ->
  decrypt_data (f_data f) s = (Ok v, s) ->
  verify_data_integrity s
  = (Ok (match v with
         | JObj d => dict_has d (lit "notes")
                     && dict_has d (lit "last_modified")
         | _ => false
         end), s).
Proof.
  intros Hf Hr Hd.
  unfold verify_data_integrity, os_path_exists. monad_unfold.
  rewrite (exists_true _ _ _ Hf). cbn [negb]. monad_unfold.
  rewrite (load_data_ok s f v Hf Hr Hd).
  destruct v; try reflexivity.
  unfold required_fields. cbn [has_fields].
  destruct (dict_has members (lit "notes")); [|reflexivity].
  destruct (dict_has members (lit "last_modified")); reflexivity.
Qed.

End Integrity.

(** *** Secure deletion *)

Lemma secure_delete_file_absent (p : path) (s : state) :
  fs s !! p = None -> secure_delete_file p s = (Ok true, s).
Proof.
  intros Hno. unfold secure_delete_file, os_path_exists. monad_unfold.
  rewrite (exists_false _ _ Hno). reflexivity.
Qed.

(** X9.  [secure_delete_file] on a file the owner may read and write
    overwrites it three times from its start, each time with as many
    fresh bytes of entropy as the file is long, then removes it, and
    returns [True]. *)
Theorem secure_delete_file_erases (p : path) (s : state) (f : file) :
  fs s !! p = Some f ->
  readable f = true ->
  writable f = true ->
  let n := length (f_data f) in
  let pass (i : nat) := map (entropy s) (seq (cursor s + i * n) n) in
  secure_delete_file p s
  = (Ok true,
     mkState (self s) (delete p (fs s)) (clock s) (entropy s)
             (cursor s + 3 * n)
             (trace s ++ [EvWrite p (pass 0%nat); EvWrite p (pass 1%nat);
                          EvWrite p (pass 2%nat)])).
Proof.
  intros Hf Hr Hw n pass.
  unfold secure_delete_file, os_path_exists, os_path_getsize, open_update.
  monad_unfold. rewrite (exists_true _ _ _ Hf). cbn [negb]. monad_unfold.
  rewrite Hf. monad_unfold. rewrite Hf, Hr, Hw. cbn [andb]. monad_unfold.
  fold n.
  unfold overwrite_passes, os_urandom, write_at_start, os_remove.
  monad_unfold.
  cbn [set_cursor set_fs fs self clock entropy cursor trace].
  rewrite Hf. cbn [set_cursor set_fs fs self clock entropy cursor trace].
  rewrite !lookup_insert_eq.
  cbn [set_cursor set_fs fs self clock entropy cursor trace].
  rewrite !lookup_insert_eq.
  cbn [set_cursor set_fs fs self clock entropy cursor trace].
  rewrite !lookup_insert_eq.
  subst pass. cbv beta.
  replace (cursor s + 0 * n)%nat with (cursor s) by lia.
  replace (cursor s + 1 * n)%nat with (cursor s + n)%nat by lia.
  replace (cursor s + 2 * n)%nat with (cursor s + n + n)%nat by lia.
  replace (cursor s + 3 * n)%nat with (cursor s + n + n + n)%nat by lia.
  rewrite !insert_insert_eq, delete_insert_eq, <- !app_assoc.
  reflexivity.
Qed.

(** X10.  [secure_delete_file] on a file the owner may not both read and
    write returns [False] and leaves the file as it was: nothing is
    overwritten and nothing removed. *)
Theorem secure_delete_file_refuses (p : path) (s : state) (f : file) :
  fs s !! p = Some f ->
  readable f && writable f = false ->
  secure_delete_file p s = (Ok false, s).
Proof.
  intros Hf Hrw.
  unfold secure_delete_file, os_path_exists, os_path_getsize, open_update.
  monad_unfold. rewrite (exists_true _ _ _ Hf). cbn [negb]. monad_unfold.
  rewrite Hf. monad_unfold. rewrite Hf, Hrw. reflexivity.
Qed.

Lemma shutil_copy2_run (src dst : path) (s : state) :
  match fs s !! src with
  | Some f =>
      if can_copy s src dst
      then shutil_copy2 src dst s
           = (Ok tt, set_fs (<[dst := f]> (fs s)) (EvCopy src dst) s)
      else exists e, shutil_copy2 src dst s = (Raise e, s)
  | None => shutil_copy2 src dst s = (Raise FileNotFoundError, s)
  end.
Proof.
  unfold can_copy, shutil_copy2.
  destruct (fs s !! src) as [f|]; [|reflexivity].
  destruct (bool_decide (src = dst)), (readable f); cbn [negb andb];
    eauto.
  destruct (fs s !! dst) as [g|]; [|reflexivity].
  destruct (writable g); eauto.
Qed.

Lemma backup_data_copies (s : state) (f : file) :
  fs s !! data_file (self s) = Some f ->
  can_copy s (data_file (self s)) (default_backup_file s) = true ->
  backup_data None s
  = (Ok true,
     set_fs (<[default_backup_file s := f]> (fs s))
            (EvCopy (data_file (self s)) (default_backup_file s)) s).
Proof.
  intros Hf Hcp.
  pose proof (shutil_copy2_run (data_file (self s)) (default_backup_file s) s)
    as Hrun.
  rewrite Hf, Hcp in Hrun.
  unfold backup_data, os_path_exists, datetime_now. monad_unfold.
  rewrite (exists_true _ _ _ Hf). cbn [negb]. monad_unfold.
  fold (default_backup_file s). rewrite Hrun. reflexivity.
Qed.


Section RestoreMore.
Context `{Cryptography}.

Lemma restore_data_copies (backup_file : path) (s : state) (f : file)
  (v : json) :
  fs s !! backup_file = Some f ->
  decrypt_data (f_data f) s = (Ok v, s) ->
  can_copy s backup_file (data_file (self s)) = true ->
  restore_data backup_file s
  = (Ok true,
     set_fs (<[data_file (self s) := f]> (fs s))
            (EvCopy backup_file (data_file (self s))) s).
Proof.
  intros Hf Hd Hcp.
  pose proof (shutil_copy2_run backup_file (data_file (self s)) s) as Hrun.
  rewrite Hf, Hcp in Hrun.
  assert (Hr : readable f = true).
  { unfold can_copy in Hcp. rewrite Hf in Hcp.
    apply andb_true_iff in Hcp as [Hcp _].
    apply andb_true_iff in Hcp as [Hcp _]. exact Hcp. }
  unfold restore_data, os_path_exists, read_file. monad_unfold.
  rewrite (exists_true _ _ _ Hf). cbn [negb]. monad_unfold.
  rewrite Hf, Hr. monad_unfold. rewrite Hd. monad_unfold.
  rewrite Hrun. reflexivity.
Qed.

Lemma save_data_stores (s : state) (k : bytes) (n m : str) :
  cipher (self s) = Some k ->
  fernet_key_ok k = true ->
  valid_text n = true -> valid_text m = true ->
  (forall f, fs s !! data_file (self s) = Some f -> writable f = true) ->
  exists s',
    save_data (vault_record n m) s = (Ok tt, s')
    /\ load_data s' = (Ok (vault_record n m), s')
    /\ self s' = self s
    /\ (exists token,
          fs s' = <[data_file (self s) := File token mode_600]> (fs s)).
Proof.
  intros Hc Hk Hn Hm Hw.
  destruct (save_data_success (vault_record n m) k
              (json_dumps (vault_record n m)) s Hc)
    as (s' & Hsave & Hself & Hfs & _).
  { apply utf8_encode_ascii, json_dumps_vault_record_ascii. }
  { exact Hw. }
  exists s'. split; [exact Hsave|].
  assert (Hlook : fs s' !! data_file (self s')
                  = Some (File (fernet_encrypt k (clock s)
                                  (map (entropy s) (seq (cursor s) 16))
                                  (json_dumps (vault_record n m)))
                               mode_600)).
  { rewrite Hself, Hfs. apply lookup_insert_eq. }
  split; [|eauto].
  apply (load_data_ok s' _ _ Hlook); [reflexivity|].
  apply decrypt_data_of_token; try assumption.
  - rewrite Hself. exact Hc.
  - rewrite length_map, length_seq. reflexivity.
Qed.

Lemma decrypt_data_same_cipher (token : bytes) (s s' : state) :
  cipher (self s') = cipher (self s) ->
  fst (decrypt_data token s') = fst (decrypt_data token s).
Proof.
  intros Hc. unfold decrypt_data, self_cipher, cipher_decrypt. monad_unfold.
  rewrite Hc.
  destruct (cipher (self s)) as [k|]; [|reflexivity].
  destruct (fernet_decrypt k token) as [m|]; [|reflexivity].
  destruct (utf8_decode m) as [t|]; [|reflexivity].
  destruct (json_loads t); reflexivity.
Qed.

Lemma decrypt_data_transfer (token : bytes) (s s' : state) (v : json) :
  cipher (self s') = cipher (self s) ->
  decrypt_data token s = (Ok v, s) ->
  decrypt_data token s' = (Ok v, s').
Proof.
  intros Hc Hd.
  pose proof (decrypt_data_same_cipher token s s' Hc) as Hfst.
  pose proof (decrypt_data_state token s') as Hsnd.
  rewrite Hd in Hfst.
  destruct (decrypt_data token s') as [r s'']. cbn in *. subst. reflexivity.
Qed.


(** X13.  A backup taken before a save brings the old vault back: after
    [backup_data], a [save_data] of a new record, and [restore_data] from
    the backup, the data file is the one the backup was taken of and
    [load_data] returns the old record. *)
Theorem backup_then_restore (s : state) (k : bytes) (f : file) (old : json)
  (n m : str) :
  cipher (self s) = Some k ->
  fernet_key_ok k = true ->
  fs s !! data_file (self s) = Some f ->
  readable f = true -> writable f = true ->
  decrypt_data (f_data f) s = (Ok old, s) ->
  fs s !! default_backup_file s = None ->
  valid_text n = true -> valid_text m = true ->
  exists s1 s2 s3,
    backup_data None s = (Ok true, s1)
    /\ save_data (vault_record n m) s1 = (Ok tt, s2)
    /\ load_data s2 = (Ok (vault_record n m), s2)
    /\ restore_data (default_backup_file s) s2 = (Ok true, s3)
    /\ fs s3 !! data_file (self s3) = Some f
    /\ load_data s3 = (Ok old, s3).
Proof.
  intros Hc Hk Hf Hr Hw Hd Hfree Hn Hm.
  assert (Hne : data_file (self s) <> default_backup_file s)
    by apply default_backup_file_neq.
  set (df := data_file (self s)) in *.
  set (bk := default_backup_file s) in *.
  assert (Hb : backup_data None s
               = (Ok true, set_fs (<[bk := f]> (fs s)) (EvCopy df bk) s)).
  { apply backup_data_copies; [exact Hf|].
    unfold can_copy. fold df bk. rewrite Hf, Hfree, Hr.
    rewrite bool_decide_eq_false_2 by exact Hne. reflexivity. }
  set (s1 := set_fs (<[bk := f]> (fs s)) (EvCopy df bk) s) in *.
  assert (Hself1 : self s1 = self s) by reflexivity.
  assert (Hfs1 : fs s1 = <[bk := f]> (fs s)) by reflexivity.
  assert (Hdf1 : fs s1 !! df = Some f).
  { rewrite Hfs1, lookup_insert_ne by (intros E; apply Hne; symmetry; exact E).
    exact Hf. }
  destruct (save_data_stores s1 k n m)
    as (s2 & Hsave & Hload & Hself2 & token & Hfs2); try assumption.
  { intros g Hg. rewrite Hself1 in Hg. fold df in Hg. rewrite Hdf1 in Hg.
    injection Hg as <-. exact Hw. }
  rewrite Hself1 in Hfs2. fold df in Hfs2.
  assert (Hdf2 : data_file (self s2) = df) by (rewrite Hself2; reflexivity).
  assert (Hbk2 : fs s2 !! bk = Some f).
  { rewrite Hfs2, lookup_insert_ne by exact Hne.
    rewrite Hfs1. apply lookup_insert_eq. }
  assert (Hd2 : decrypt_data (f_data f) s2 = (Ok old, s2)).
  { apply (decrypt_data_transfer _ s); [rewrite Hself2; reflexivity|exact Hd]. }
  assert (Hrestore :
            restore_data bk s2
            = (Ok true, set_fs (<[df := f]> (fs s2)) (EvCopy bk df) s2)).
  { rewrite <- Hdf2. apply (restore_data_copies bk s2 f old Hbk2 Hd2).
    unfold can_copy. rewrite Hbk2, Hr, Hdf2.
    rewrite bool_decide_eq_false_2
      by (intros E; apply Hne; symmetry; exact E).
    rewrite Hfs2, lookup_insert_eq. reflexivity. }
  exists s1, s2, (set_fs (<[df := f]> (fs s2)) (EvCopy bk df) s2).
  split; [exact Hb|]. split; [exact Hsave|]. split; [exact Hload|].
  split; [exact Hrestore|].
  cbn [set_fs self fs]. rewrite Hdf2, lookup_insert_eq.
  split; [reflexivity|].
  apply (load_data_ok _ f old).
  - cbn [set_fs self fs]. rewrite Hdf2. apply lookup_insert_eq.
  - exact Hr.
  - apply (decrypt_data_transfer _ s); [|exact Hd].
    cbn [set_fs self]. rewrite Hself2. reflexivity.
Qed.

End RestoreMore.

Lemma backup_data_returns (s : state) :
  exists b, backup_data None s = (Ok b, snd (backup_data None s)).
Proof.
  destruct (backup_data_cases s) as [Hb|(f & _ & Hb)]; rewrite Hb; eauto.
Qed.

Lemma backup_data_self (s : state) :
  self (snd (backup_data None s)) = self s.
Proof.
  destruct (backup_data_cases s) as [Hb|(f & _ & Hb)]; rewrite Hb;
    reflexivity.
Qed.

Lemma backup_data_other_file (s : state) (p : path) :
  p <> default_backup_file s ->
  fs (snd (backup_data None s)) !! p = fs s !! p.
Proof.
  intros Hne.
  destruct (backup_data_cases s) as [Hb|(f & _ & Hb)]; rewrite Hb;
    [reflexivity|].
  cbn [snd set_fs fs]. apply lookup_insert_ne. congruence.
Qed.

Section RotationMore.
Context `{Cryptography}.

Lemma change_encryption_key_given (key : bytes) (s : state) :
  exists v,
    load_data s = (Ok v, s)
    /\ change_encryption_key (Some key) s
       = rotation_steps key v (snd (backup_data None s)).
Proof.
  destruct (load_data_total s) as [v Hv]. exists v. split; [exact Hv|].
  destruct (backup_data_returns s) as [b Hb].
  unfold change_encryption_key, rotation_steps.
  erewrite try_bind_Ok by exact Hv. cbv beta.
  erewrite try_bind_Ok by exact Hb. cbv beta.
  erewrite try_bind_Ok by reflexivity. reflexivity.
Qed.

Lemma change_encryption_key_generated (s : state) :
  let s1 := snd (backup_data None s) in
  exists v,
    load_data s = (Ok v, s)
    /\ change_encryption_key None s
       = rotation_steps
           (fernet_generate_key (map (entropy s1) (seq (cursor s1) 32)))
           v (set_cursor (cursor s1 + 32)%nat s1).
Proof.
  intros s1.
  destruct (load_data_total s) as [v Hv]. exists v. split; [exact Hv|].
  destruct (backup_data_returns s) as [b Hb].
  unfold change_encryption_key, rotation_steps.
  erewrite try_bind_Ok by exact Hv. cbv beta.
  erewrite try_bind_Ok by exact Hb. cbv beta.
  erewrite try_bind_Ok by reflexivity. reflexivity.
Qed.

Lemma rotation_steps_invalid_key (key : bytes) (data : json) (s : state) :
  fernet_key_ok key = false ->
  rotation_steps key data s = (Ok false, s).
Proof.
  intros Hk. unfold rotation_steps, Fernet. rewrite Hk.
  erewrite try_bind_Raise by reflexivity. reflexivity.
Qed.

Lemma rotation_steps_key_write_fails (key : bytes) (data : json) (s : state)
  (g : file) :
  fernet_key_ok key = true ->
  fs s !! key_file (self s) = Some g -> writable g = false ->
  rotation_steps key data s = (Ok false, set_cipher (Some key) s).
Proof.
  intros Hk Hg Hw. unfold rotation_steps, Fernet. rewrite Hk.
  erewrite try_bind_Ok by reflexivity.
  erewrite try_bind_Ok by reflexivity.
  erewrite try_bind_Raise; [reflexivity|].
  apply (save_key_failure key (set_cipher (Some key) s) g); assumption.
Qed.

(** X14.  [change_encryption_key] with a key that [Fernet] rejects returns
    [False] and leaves the state as the backup step left it: the cipher
    is the old one, and nothing is written after the backup. *)
Theorem rotation_invalid_key (key : bytes) (s : state) :
  fernet_key_ok key = false ->
  change_encryption_key (Some key) s = (Ok false, snd (backup_data None s)).
Proof.
  intros Hk. destruct (change_encryption_key_given key s) as (v & _ & ->).
  apply rotation_steps_invalid_key, Hk.
Qed.

(** X15.  [change_encryption_key] over a key file that cannot be written
    returns [False] with nothing written after the backup, yet the object
    already works with the new key: its cipher no longer matches the key
    file or the data file. *)
Theorem rotation_key_write_fails (key : bytes) (s : state) (g : file) :
  fernet_key_ok key = true ->
  fs s !! key_file (self s) = Some g ->
  writable g = false ->
  key_file (self s) <> default_backup_file s ->
  change_encryption_key (Some key) s
  = (Ok false, set_cipher (Some key) (snd (backup_data None s))).
Proof.
  intros Hk Hg Hw Hne.
  destruct (change_encryption_key_given key s) as (v & _ & ->).
  apply (rotation_steps_key_write_fails key v _ g Hk); [|exact Hw].
  rewrite backup_data_self, backup_data_other_file by exact Hne. exact Hg.
Qed.

Lemma save_data_inversion (data : json) (k : bytes) (s s' : state) :
  save_data data s = (Ok tt, s') ->
  cipher (self s) = Some k ->
  exists plain,
    utf8_encode (json_dumps data) = Ok plain
    /\ self s' = self s
    /\ fs s' = <[data_file (self s)
                 := File (fernet_encrypt k (clock s)
                            (map (entropy s) (seq (cursor s) 16)) plain)
                         mode_600]> (fs s).
Proof.
  intros Hsave Hc.
  destruct (utf8_encode (json_dumps data)) as [plain|e] eqn:Hp.
  2:{ exfalso. revert Hsave.
      unfold save_data, encrypt_data, self_cipher. monad_unfold.
      rewrite Hc. monad_unfold. rewrite Hp. discriminate. }
  exists plain. split; [reflexivity|].
  revert Hsave. unfold save_data. unfold try_except.
  rewrite run_bind, (encrypt_data_ok data k plain s Hc Hp).
  unfold write_file, os_chmod. monad_unfold. cbn [set_cursor self fs].
  destruct (fs s !! data_file (self s)) as [f|] eqn:Hf.
  - destruct (writable f); [|discriminate].
    cbn [set_fs fs]. rewrite lookup_insert_eq. intros [= <-].
    cbn [set_fs self fs]. rewrite insert_insert_eq. auto.
  - cbn [set_fs fs]. rewrite lookup_insert_eq. intros [= <-].
    cbn [set_fs self fs]. rewrite insert_insert_eq. auto.
Qed.

Lemma rotation_steps_success (key : bytes) (data : json) (s s' : state) :
  rotation_steps key data s = (Ok true, s') ->
  fernet_key_ok key = true
  /\ exists s2,
       self s2 = self (set_cipher (Some key) s)
       /\ save_data data s2 = (Ok tt, s').
Proof.
  unfold rotation_steps, Fernet.
  destruct (fernet_key_ok key) eqn:Hk.
  2:{ erewrite try_bind_Raise by reflexivity. discriminate. }
  erewrite try_bind_Ok by reflexivity.
  erewrite try_bind_Ok by reflexivity.
  destruct (save_key_cases key (set_cipher (Some key) s))
    as [[e He]|(s2 & He & Hself & _)].
  { erewrite try_bind_Raise by exact He. discriminate. }
  erewrite try_bind_Ok by exact He.
  destruct (save_data data s2) as [[[]|e] s3] eqn:Hd.
  - erewrite try_bind_Ok by exact Hd. intros [= <-]. eauto.
  - erewrite try_bind_Raise by exact Hd. discriminate.
Qed.

(** After a rotation that succeeds, [load_data] gives the record that
    [load_data] gave before it. *)
Lemma rotation_reloads (new_key : option bytes) (s s' : state) (n m : str) :
  change_encryption_key new_key s = (Ok true, s') ->
  load_data s = (Ok (vault_record n m), s) ->
  valid_text n = true -> valid_text m = true ->
  load_data s' = (Ok (vault_record n m), s')
  /\ exists key token,
       cipher (self s') = Some key
       /\ fs s' !! data_file (self s') = Some (File token mode_600)
       /\ decrypt_data token s' = (Ok (vault_record n m), s').
Proof.
  intros Hrun Hload Hn Hm.
  assert (Hsteps : exists key s1,
             rotation_steps key (vault_record n m) s1 = (Ok true, s')).
  { destruct new_key as [key|].
    - destruct (change_encryption_key_given key s) as (v & Hv & Heq).
      rewrite Hload in Hv. injection Hv as <-.
      rewrite Heq in Hrun. eauto.
    - destruct (change_encryption_key_generated s) as (v & Hv & Heq).
      rewrite Hload in Hv. injection Hv as <-.
      rewrite Heq in Hrun. eauto. }
  destruct Hsteps as (key & s1 & Hsteps).
  apply rotation_steps_success in Hsteps as (Hk & s2 & Hself2 & Hsave).
  assert (Hc2 : cipher (self s2) = Some key) by (rewrite Hself2; reflexivity).
  destruct (save_data_inversion _ key s2 s' Hsave Hc2)
    as (plain & Hp & Hself' & Hfs').
  rewrite utf8_encode_ascii in Hp by apply json_dumps_vault_record_ascii.
  injection Hp as <-.
  assert (Hc' : cipher (self s') = Some key) by (rewrite Hself'; exact Hc2).
  assert (Hlook : fs s' !! data_file (self s')
                  = Some (File (fernet_encrypt key (clock s2)
                                  (map (entropy s2) (seq (cursor s2) 16))
                                  (json_dumps (vault_record n m)))
                               mode_600)).
  { rewrite Hself', Hfs'. apply lookup_insert_eq. }
  assert (Hdec : decrypt_data
                   (fernet_encrypt key (clock s2)
                      (map (entropy s2) (seq (cursor s2) 16))
                      (json_dumps (vault_record n m))) s'
                 = (Ok (vault_record n m), s')).
  { apply decrypt_data_of_token; try assumption.
    rewrite length_map, length_seq. reflexivity. }
  split; [|eauto 10].
  apply (load_data_ok s' _ _ Hlook); [reflexivity | exact Hdec].
Qed.

(** X16.  A key rotation that returns [True] keeps the record: what
    [load_data] returned before it, [load_data] returns after it, now
    under the new key. *)
Theorem rotation_keeps_record (new_key : option bytes) (s s' : state)
  (n m : str) :
  change_encryption_key new_key s = (Ok true, s') ->
  load_data s = (Ok (vault_record n m), s) ->
  valid_text n = true -> valid_text m = true ->
  load_data s' = (Ok (vault_record n m), s').
Proof.
  intros Hrun Hload Hn Hm.
  exact (proj1 (rotation_reloads new_key s s' n m Hrun Hload Hn Hm)).
Qed.

(** X17.  A key rotation over a data file that cannot be read or does not
    decrypt, if it returns [True], has replaced the file's contents by the
    encryption of the empty record: what was stored is no longer in the
    data file. *)
Theorem rotation_of_unreadable_vault (new_key : option bytes) (s s' : state)
  (f : file) :
  fs s !! data_file (self s) = Some f ->
  (readable f = false
   \/ forall k, cipher (self s) = Some k ->
                fernet_decrypt k (f_data f) = None) ->
  change_encryption_key new_key s = (Ok true, s') ->
  exists token,
    fs s' !! data_file (self s') = Some (File token mode_600)
    /\ decrypt_data token s' = (Ok empty_record, s').
Proof.
  intros Hf Hbad Hrun.
  destruct (rotation_reloads new_key s s' [] [] Hrun)
    as (_ & key & token & _ & Hfile & Hdec); try reflexivity.
  - exact (load_data_fallback s f Hf Hbad).
  - eauto.
Qed.

End RotationMore.

(** *** The vault theorems on the sample states *)



Lemma init_loads_existing_key_witness :
  @VaultEncryptor_init toy_cryptography "secret.key" "vault_data.json"
                       saved_vault
  = (Ok tt,
     set_cipher (Some saved_key)
       (reset_self "secret.key" "vault_data.json" saved_vault)).
Proof.
  apply (@init_loads_existing_key toy_cryptography "secret.key"
           "vault_data.json" saved_vault (File saved_key mode_600));
    vm_compute; reflexivity.
Defined.

Lemma init_rejects_corrupt_key_witness :
  @VaultEncryptor_init toy_cryptography "secret.key" "vault_data.json"
                       corrupt_key_vault
  = (Raise ValueError,
     reset_self "secret.key" "vault_data.json" corrupt_key_vault).
Proof.
  apply (@init_rejects_corrupt_key toy_cryptography "secret.key"
           "vault_data.json" corrupt_key_vault (File [1; 2; 3] mode_600));
    vm_compute; reflexivity.
Defined.

Lemma init_overwrites_unreadable_key_witness :
  exists s',
    @VaultEncryptor_init toy_cryptography "secret.key" "vault_data.json"
                         writeonly_key_vault = (Ok tt, s')
    /\ cipher (self s')
       = Some (urlsafe_b64encode
                 (map entropy0 (seq (cursor writeonly_key_vault) 32)))
    /\ fs s'
       = <["secret.key"%string
           := File (urlsafe_b64encode
                      (map entropy0 (seq (cursor writeonly_key_vault) 32)))
                   mode_600]> (fs writeonly_key_vault).
Proof.
  apply (@init_overwrites_unreadable_key toy_cryptography "secret.key"
           "vault_data.json" writeonly_key_vault (File saved_key 128));
    vm_compute; reflexivity.
Defined.

Lemma init_establishes_cipher_witness :
  exists k mode info,
    cipher (self fresh_vault) = Some k
    /\ @fernet_key_ok toy_cryptography k = true
    /\ key_file (self fresh_vault) = "secret.key"%string
    /\ data_file (self fresh_vault) = "vault_data.json"%string
    /\ fs fresh_vault !! "secret.key"%string = Some (File k mode)
    /\ get_file_info fresh_vault = (Ok info, fresh_vault)
    /\ cipher_initialized info = true
    /\ info_exists (info_key_file info) = true
    /\ info_size (info_key_file info) = length k.
Proof.
  apply (@init_establishes_cipher toy_cryptography "secret.key"
           "vault_data.json" boot fresh_vault).
  vm_compute. reflexivity.
Defined.

Lemma verify_data_integrity_blind_witness :
  @verify_data_integrity toy_cryptography tampered_vault
  = (Ok true, tampered_vault).
Proof.
  apply (@verify_data_integrity_blind toy_cryptography tampered_vault).
  right. exists (File [1; 2; 3] mode_600).
  split; [vm_compute; reflexivity|].
  right. intros k Hk. vm_compute in Hk. injection Hk as <-.
  vm_compute. reflexivity.
Defined.

Lemma verify_data_integrity_schema_witness :
  @verify_data_integrity toy_cryptography saved_vault = (Ok true, saved_vault).
Proof.
  apply (@verify_data_integrity_schema toy_cryptography saved_vault
           saved_file sample_record); vm_compute; reflexivity.
Defined.

Lemma secure_delete_file_erases_witness :
  exists s',
    secure_delete_file "vault_data.json" saved_vault = (Ok true, s')
    /\ fs s' !! "vault_data.json"%string = None
    /\ cursor s' = (cursor saved_vault + 3 * length (f_data saved_file))%nat.
Proof.
  rewrite (secure_delete_file_erases "vault_data.json" saved_vault saved_file)
    by (vm_compute; reflexivity).
  eexists. split; [reflexivity|]. split; vm_compute; reflexivity.
Defined.

Lemma secure_delete_file_refuses_witness :
  secure_delete_file "vault_data.json" readonly_vault
  = (Ok false, readonly_vault).
Proof.
  apply (secure_delete_file_refuses "vault_data.json" readonly_vault
           (File (f_data saved_file) 256)); vm_compute; reflexivity.
Defined.


Lemma backup_then_restore_witness :
  exists s1 s2 s3,
    backup_data None saved_vault = (Ok true, s1)
    /\ @save_data toy_cryptography (vault_record (lit "new") (lit "later")) s1
       = (Ok tt, s2)
    /\ @load_data toy_cryptography s2
       = (Ok (vault_record (lit "new") (lit "later")), s2)
    /\ @restore_data toy_cryptography (default_backup_file saved_vault) s2
       = (Ok true, s3)
    /\ fs s3 !! data_file (self s3) = Some saved_file
    /\ @load_data toy_cryptography s3 = (Ok sample_record, s3).
Proof.
  apply (@backup_then_restore toy_cryptography saved_vault saved_key
           saved_file sample_record (lit "new") (lit "later"));
    vm_compute; reflexivity.
Defined.

Lemma rotation_invalid_key_witness :
  @change_encryption_key toy_cryptography (Some [1; 2; 3]) saved_vault
  = (Ok false, backed_up_vault).
Proof.
  apply (@rotation_invalid_key toy_cryptography [1; 2; 3] saved_vault).
  vm_compute. reflexivity.
Defined.

Lemma rotation_key_write_fails_witness :
  @change_encryption_key toy_cryptography (Some other_key) readonly_key_vault
  = (Ok false,
     set_cipher (Some other_key) (snd (backup_data None readonly_key_vault))).
Proof.
  apply (@rotation_key_write_fails toy_cryptography other_key
           readonly_key_vault (File saved_key 256));
    try (vm_compute; reflexivity).
  intros E. vm_compute in E. discriminate E.
Defined.

Lemma rotation_keeps_record_witness :
  @load_data toy_cryptography rekeyed_vault = (Ok sample_record, rekeyed_vault).
Proof.
  apply (@rotation_keeps_record toy_cryptography (Some other_key) saved_vault
           rekeyed_vault (lit "hi") (lit "2025-01-01 12:00:00"));
    vm_compute; reflexivity.
Defined.

Lemma rotation_of_unreadable_vault_witness :
  exists token,
    fs rekeyed_tampered_vault !! data_file (self rekeyed_tampered_vault)
    = Some (File token mode_600)
    /\ @decrypt_data toy_cryptography token rekeyed_tampered_vault
       = (Ok empty_record, rekeyed_tampered_vault).
Proof.
  apply (@rotation_of_unreadable_vault toy_cryptography (Some other_key)
           tampered_vault rekeyed_tampered_vault (File [1; 2; 3] mode_600)).
  - vm_compute. reflexivity.
  - right. intros k Hk. vm_compute in Hk. injection Hk as <-.
    vm_compute. reflexivity.
  - vm_compute. reflexivity.
Defined.

(** ** Sessions of [authenticate] *)

Section LoopProps.
Variable Dist : Type.
Variable norm_diff : encoding -> encoding -> Dist.
Variable dist_le : Dist -> Q -> bool.

Lemma while_loop_cons (fa : FaceAuthenticator) (start_time : Q)
  (st : session) (tk : tick) (rest : list tick) :
  while_loop Dist norm_diff dist_le fa start_time st (tk :: rest)
  = if (attempts st <? max_attempts fa)%nat then
      match loop_body Dist norm_diff dist_le fa start_time st tk with
      | Return r => Some r
      | Break st' => Some (after_loop fa st')
      | Next st' =>
          while_loop Dist norm_diff dist_le fa start_time st' rest
      end
    else Some (after_loop fa st).
Proof. reflexivity. Qed.

(** The ways through the loop body. *)
Lemma loop_body_frames (fa : FaceAuthenticator) (start_time : Q)
  (st : session) (tk : tick) :
  (timed_out fa start_time tk = true
   /\ loop_body Dist norm_diff dist_le fa start_time st tk = Break st)
  \/ (matching_tick Dist norm_diff dist_le fa start_time tk = true
      /\ loop_body Dist norm_diff dist_le fa start_time st tk
         = if (required_matches <=? S (consecutive_matches st))%nat
           then Return (true, msg_success)
           else Next (mkSession (attempts st) (S (consecutive_matches st))))
  \/ (mismatching_tick Dist norm_diff dist_le fa start_time tk = true
      /\ loop_body Dist norm_diff dist_le fa start_time st tk
         = Next (mkSession (S (attempts st)) 0))
  \/ (timed_out fa start_time tk = false /\ frame tk = Some None
      /\ loop_body Dist norm_diff dist_le fa start_time st tk
         = Next (mkSession (attempts st) 0))
  \/ (skipped_tick fa start_time tk = true
      /\ loop_body Dist norm_diff dist_le fa start_time st tk = Next st).
Proof.
  unfold loop_body, matching_tick, mismatching_tick, skipped_tick, timed_out.
  destruct (Qlt_bool (timeout_seconds fa) (now tk - start_time)) eqn:Ht;
    [left; auto|].
  cbn [negb andb].
  destruct (frame tk) as [[encs|]|].
  - destruct (verify_face Dist norm_diff dist_le fa (Some encs)) eqn:Hv.
    + right. left. auto.
    + right. right. left. auto.
  - right. right. right. left. auto.
  - right. right. right. right. auto.
Qed.

Lemma after_loop_false (fa : FaceAuthenticator) (st : session) :
  fst (after_loop fa st) = false.
Proof.
  unfold after_loop. destruct (max_attempts fa <=? attempts st)%nat;
    reflexivity.
Qed.

Lemma streak_later (fa : FaceAuthenticator) (start_time : Q) (n : nat)
  (tk : tick) (ticks : list tick) :
  (exists pre rest, ticks = pre ++ rest
                    /\ streak Dist norm_diff dist_le fa start_time n rest) ->
  exists pre rest, tk :: ticks = pre ++ rest
                   /\ streak Dist norm_diff dist_le fa start_time n rest.
Proof.
  intros (pre & rest & -> & Hs). exists (tk :: pre), rest. auto.
Qed.

(** The loop returns [True] only at the end of three matches in a row. *)
Lemma while_loop_accepts_only_streak (fa : FaceAuthenticator) (start_time : Q)
  (ticks : list tick) (st : session) (msg : string) :
  while_loop Dist norm_diff dist_le fa start_time st ticks = Some (true, msg) ->
  msg = msg_success
  /\ (streak Dist norm_diff dist_le fa start_time
             (required_matches - consecutive_matches st) ticks
      \/ exists pre rest,
           ticks = pre ++ rest
           /\ streak Dist norm_diff dist_le fa start_time required_matches
                     rest).
Proof.
  revert st. induction ticks as [|tk rest IH]; intros st.
  - cbn [while_loop]. destruct (attempts st <? max_attempts fa)%nat;
      [discriminate|].
    intros Hrun. pose proof (after_loop_false fa st) as Hf.
    injection Hrun as Hrun. rewrite Hrun in Hf. discriminate Hf.
  - rewrite while_loop_cons.
    destruct (attempts st <? max_attempts fa)%nat.
    2:{ intros Hrun. pose proof (after_loop_false fa st) as Hf.
        injection Hrun as Hrun. rewrite Hrun in Hf. discriminate Hf. }
    destruct (loop_body_frames fa start_time st tk)
      as [[Ht ->]|[[Hm ->]|[[Hm ->]|[(Ht & Hfr & ->)|[Hs ->]]]]].
    + intros Hrun. pose proof (after_loop_false fa st) as Hf.
      injection Hrun as Hrun. rewrite Hrun in Hf. discriminate Hf.
    + destruct (required_matches <=? S (consecutive_matches st))%nat eqn:Hreq.
      * intros [= <-]. split; [reflexivity|]. left.
        apply Nat.leb_le in Hreq.
        destruct (required_matches - consecutive_matches st)%nat as [|k] eqn:Hk;
          [constructor|].
        assert (k = 0%nat) by lia. subst k.
        apply streak_match; [exact Hm | constructor].
      * intros Hrun. apply IH in Hrun as [-> Hst]. split; [reflexivity|].
        cbn [consecutive_matches] in Hst. apply Nat.leb_gt in Hreq.
        destruct Hst as [Hst|Hst]; [left|right; apply streak_later, Hst].
        replace (required_matches - consecutive_matches st)%nat
          with (S (required_matches - S (consecutive_matches st)))%nat by lia.
        apply streak_match; assumption.
    + intros Hrun. apply IH in Hrun as [-> Hst]. split; [reflexivity|].
      right. cbn [consecutive_matches] in Hst.
      rewrite Nat.sub_0_r in Hst.
      destruct Hst as [Hst|Hst]; [|apply streak_later, Hst].
      exists [tk], rest. auto.
    + intros Hrun. apply IH in Hrun as [-> Hst]. split; [reflexivity|].
      right. cbn [consecutive_matches] in Hst.
      rewrite Nat.sub_0_r in Hst.
      destruct Hst as [Hst|Hst]; [|apply streak_later, Hst].
      exists [tk], rest. auto.
    + intros Hrun. apply IH in Hrun as [-> Hst]. split; [reflexivity|].
      destruct Hst as [Hst|Hst]; [left|right; apply streak_later, Hst].
      destruct (required_matches - consecutive_matches st)%nat as [|k];
        [constructor|].
      apply streak_skip; assumption.
Qed.

Lemma matching_not_mismatching (fa : FaceAuthenticator) (start_time : Q)
  (tk : tick) :
  matching_tick Dist norm_diff dist_le fa start_time tk = true ->
  mismatching_tick Dist norm_diff dist_le fa start_time tk = false.
Proof.
  unfold matching_tick, mismatching_tick.
  destruct (negb (timed_out fa start_time tk)); [|discriminate].
  cbn [andb]. destruct (frame tk) as [[encs|]|]; try discriminate.
  intros ->. reflexivity.
Qed.

(** From any point of the loop with an attempt left, a run of matches
    long enough to reach three in a row is accepted. *)
Lemma streak_accepted (fa : FaceAuthenticator) (start_time : Q)
  (ticks : list tick) (n : nat) (st : session) :
  streak Dist norm_diff dist_le fa start_time n ticks ->
  (attempts st < max_attempts fa)%nat ->
  (1 <= n)%nat ->
  (required_matches <= consecutive_matches st + n)%nat ->
  while_loop Dist norm_diff dist_le fa start_time st ticks
  = Some (true, msg_success).
Proof.
  intros Hst. revert st.
  induction Hst as [ticks|n tk ticks Hs _ IH|n tk ticks Hm _ IH];
    intros st Hatt Hn Hreq.
  - lia.
  - rewrite while_loop_cons.
    apply Nat.ltb_lt in Hatt as Hatt'. rewrite Hatt'.
    destruct (loop_body_frames fa start_time st tk)
      as [[Ht _]|[[Hm' _]|[[Hm' _]|[(_ & Hfr & _)|[_ ->]]]]].
    + unfold skipped_tick in Hs. rewrite Ht in Hs. discriminate Hs.
    + unfold skipped_tick, matching_tick in *.
      destruct (negb (timed_out fa start_time tk)); [|discriminate].
      destruct (frame tk) as [[?|]|]; discriminate.
    + unfold skipped_tick, mismatching_tick in *.
      destruct (negb (timed_out fa start_time tk)); [|discriminate].
      destruct (frame tk) as [[?|]|]; discriminate.
    + unfold skipped_tick in Hs. rewrite Hfr, andb_false_r in Hs.
      discriminate Hs.
    + apply IH; assumption.
  - rewrite while_loop_cons.
    apply Nat.ltb_lt in Hatt as Hatt'. rewrite Hatt'.
    destruct (loop_body_frames fa start_time st tk)
      as [[Ht _]|[[_ ->]|[[Hm' _]|[(_ & Hfr & _)|[Hs _]]]]].
    + unfold matching_tick in Hm. rewrite Ht in Hm. discriminate Hm.
    + destruct (required_matches <=? S (consecutive_matches st))%nat eqn:Hle;
        [reflexivity|].
      apply Nat.leb_gt in Hle.
      apply IH; cbn [attempts consecutive_matches]; try assumption; lia.
    + rewrite (matching_not_mismatching fa start_time tk Hm) in Hm'.
      discriminate Hm'.
    + unfold matching_tick in Hm. rewrite Hfr, andb_false_r in Hm.
      discriminate Hm.
    + unfold matching_tick, skipped_tick in *.
      destruct (negb (timed_out fa start_time tk)); [|discriminate].
      destruct (frame tk) as [[?|]|]; discriminate.
Qed.

(** Three matches in a row are accepted when they come in time and
    before the attempts are used up. *)
Lemma while_loop_accepts_streak (fa : FaceAuthenticator) (start_time : Q)
  (pre rest : list tick) (st : session) :
  (attempts st
   + count_ticks (mismatching_tick Dist norm_diff dist_le fa start_time) pre
   < max_attempts fa)%nat ->
  forallb (fun tk => negb (timed_out fa start_time tk)) pre = true ->
  streak Dist norm_diff dist_le fa start_time required_matches rest ->
  while_loop Dist norm_diff dist_le fa start_time st (pre ++ rest)
  = Some (true, msg_success).
Proof.
  intros Hcount Hin Hst. revert st Hcount.
  induction pre as [|tk pre IH]; intros st Hcount.
  - cbn [app]. unfold count_ticks in Hcount. cbn in Hcount.
    apply (streak_accepted fa start_time rest required_matches st Hst);
      unfold required_matches; lia.
  - cbn [forallb] in Hin. apply andb_true_iff in Hin as [Htk Hin].
    apply negb_true_iff in Htk.
    unfold count_ticks in *. cbn [List.filter] in Hcount.
    cbn [app]. rewrite while_loop_cons.
    assert (Hatt : (attempts st < max_attempts fa)%nat) by lia.
    apply Nat.ltb_lt in Hatt as Hatt'. rewrite Hatt'.
    destruct (loop_body_frames fa start_time st tk)
      as [[Ht _]|[[Hm ->]|[[Hm ->]|[(_ & _ & ->)|[_ ->]]]]].
    + rewrite Ht in Htk. discriminate Htk.
    + destruct (required_matches <=? S (consecutive_matches st))%nat;
        [reflexivity|].
      apply (IH Hin). cbn [attempts].
      destruct (mismatching_tick Dist norm_diff dist_le fa start_time tk);
        cbn [length] in Hcount; lia.
    + rewrite Hm in Hcount. cbn [length] in Hcount.
      apply (IH Hin). cbn [attempts]. lia.
    + apply (IH Hin). cbn [attempts].
      destruct (mismatching_tick Dist norm_diff dist_le fa start_time tk);
        cbn [length] in Hcount; lia.
    + apply (IH Hin).
      destruct (mismatching_tick Dist norm_diff dist_le fa start_time tk);
        cbn [length] in Hcount; lia.
Qed.


(** Ticks without a face neither end the loop nor use up an attempt. *)
Lemma while_loop_faceless (fa : FaceAuthenticator) (start_time : Q)
  (ticks : list tick) (st : session) (late : tick) (rest : list tick) :
  (attempts st < max_attempts fa)%nat ->
  forallb (faceless_tick fa start_time) ticks = true ->
  timed_out fa start_time late = true ->
  while_loop Dist norm_diff dist_le fa start_time st ticks = None
  /\ while_loop Dist norm_diff dist_le fa start_time st
                (ticks ++ late :: rest)
     = Some (false, msg_timeout).
Proof.
  intros Hatt Hall Hlate. revert st Hatt.
  induction ticks as [|tk ticks IH]; intros st Hatt.
  - apply Nat.ltb_lt in Hatt as Hatt'. split.
    + cbn [while_loop]. rewrite Hatt'. reflexivity.
    + cbn [app]. rewrite while_loop_cons, Hatt'.
      unfold loop_body. fold (timed_out fa start_time late). rewrite Hlate.
      unfold after_loop.
      replace (max_attempts fa <=? attempts st)%nat with false
        by (symmetry; apply Nat.leb_gt; exact Hatt).
      reflexivity.
  - cbn [forallb] in Hall. apply andb_true_iff in Hall as [Hf Hall].
    apply Nat.ltb_lt in Hatt as Hatt'.
    cbn [app]. rewrite !while_loop_cons, Hatt'.
    assert (Hnext : exists c,
               loop_body Dist norm_diff dist_le fa start_time st tk
               = Next (mkSession (attempts st) c)).
    { unfold faceless_tick in Hf. apply andb_true_iff in Hf as [Ht Hfr].
      unfold loop_body. fold (timed_out fa start_time tk).
      apply negb_true_iff in Ht. rewrite Ht.
      destruct (frame tk) as [[encs|]|]; [discriminate| |].
      - eauto.
      - exists (consecutive_matches st). destruct st; reflexivity. }
    destruct Hnext as [c ->]. apply IH; assumption.
Qed.

(** *** [authenticate] as a whole *)

Lemma authenticate_unfold (fa : FaceAuthenticator) (camera : bool)
  (start_time : Q) (ticks : list tick) :
  authenticate Dist norm_diff dist_le fa camera start_time ticks
  = match known_face_encodings fa with
    | [] => Some (false, msg_no_reference)
    | _ =>
        if camera
        then while_loop Dist norm_diff dist_le fa start_time (mkSession 0 0)
                        ticks
        else Some (false, msg_no_camera)
    end.
Proof.
  unfold authenticate. destruct (known_face_encodings fa); [reflexivity|].
  destruct camera; reflexivity.
Qed.

(** X18.  [authenticate] returns [True] only with the message
    [Authentication successful], with an enrolled face and an open camera,
    and only when the ticks it was given hold three matching frames in a
    row, none of them after the timeout and none separated from the next
    by a mismatch or a frame without a face. *)
Theorem authenticate_accepts_only_streak (fa : FaceAuthenticator)
  (camera : bool) (start_time : Q) (ticks : list tick) (msg : string) :
  authenticate Dist norm_diff dist_le fa camera start_time ticks
  = Some (true, msg) ->
  msg = msg_success
  /\ camera = true
  /\ known_face_encodings fa <> []
  /\ exists pre rest,
       ticks = pre ++ rest
       /\ streak Dist norm_diff dist_le fa start_time required_matches rest.
Proof.
  rewrite authenticate_unfold.
  destruct (known_face_encodings fa) as [|k ks]; [discriminate|].
  destruct camera; [|discriminate].
  intros Hrun.
  apply while_loop_accepts_only_streak in Hrun as [-> Hst].
  split; [reflexivity|]. split; [reflexivity|]. split; [discriminate|].
  destruct Hst as [Hst|Hst]; [|exact Hst].
  exists [], ticks. split; [reflexivity | exact Hst].
Qed.

(** X19.  With an enrolled face and an open camera, [authenticate]
    accepts as soon as three matching frames in a row arrive, provided
    that no earlier tick is past the timeout and that fewer than
    [max_attempts] earlier frames showed a face that did not match. *)
Theorem authenticate_accepts_streak (fa : FaceAuthenticator) (start_time : Q)
  (pre rest : list tick) :
  known_face_encodings fa <> [] ->
  (count_ticks (mismatching_tick Dist norm_diff dist_le fa start_time) pre
   < max_attempts fa)%nat ->
  forallb (fun tk => negb (timed_out fa start_time tk)) pre = true ->
  streak Dist norm_diff dist_le fa start_time required_matches rest ->
  authenticate Dist norm_diff dist_le fa true start_time (pre ++ rest)
  = Some (true, msg_success).
Proof.
  intros Hknown Hcount Hin Hst. rewrite authenticate_unfold.
  destruct (known_face_encodings fa) as [|k ks]; [congruence|].
  apply while_loop_accepts_streak; assumption.
Qed.


(** X21.  Frames without a face, and ticks at which the camera gives no
    frame, never end a session and use up no attempt: however many there
    are, the loop is still running after them, and the session ends with
    the timeout message at the first tick past the timeout. *)
Theorem authenticate_faceless_session (fa : FaceAuthenticator)
  (start_time : Q) (ticks : list tick) (late : tick) (rest : list tick) :
  known_face_encodings fa <> [] ->
  (0 < max_attempts fa)%nat ->
  forallb (faceless_tick fa start_time) ticks = true ->
  timed_out fa start_time late = true ->
  authenticate Dist norm_diff dist_le fa true start_time ticks = None
  /\ authenticate Dist norm_diff dist_le fa true start_time
                  (ticks ++ late :: rest)
     = Some (false, msg_timeout).
Proof.
  intros Hknown Hmax Hall Hlate. rewrite !authenticate_unfold.
  destruct (known_face_encodings fa) as [|k ks]; [congruence|].
  apply while_loop_faceless; assumption.
Qed.

End LoopProps.

(** *** The authentication theorems on the sample frames *)

Lemma authenticate_accepts_only_streak_witness :
  exists pre rest,
    [MISMATCH 1; MATCH 2; MATCH 3; MATCH 4] = pre ++ rest
    /\ streak Q sq_dist sqrt_le enrolled 0 required_matches rest.
Proof.
  destruct (authenticate_accepts_only_streak Q sq_dist sqrt_le enrolled true 0
              [MISMATCH 1; MATCH 2; MATCH 3; MATCH 4] msg_success)
    as (_ & _ & _ & Hst).
  - vm_compute. reflexivity.
  - exact Hst.
Defined.

Lemma authenticate_accepts_streak_witness :
  euclid_authenticate enrolled true 0
    ([MISMATCH 1; NO_FACE 2] ++ [MATCH 3; MATCH 4; MATCH 5])
  = Some (true, msg_success).
Proof.
  apply (authenticate_accepts_streak Q sq_dist sqrt_le enrolled 0
           [MISMATCH 1; NO_FACE 2] [MATCH 3; MATCH 4; MATCH 5]).
  - discriminate.
  - vm_compute. lia.
  - vm_compute. reflexivity.
  - repeat (apply streak_match; [vm_compute; reflexivity|]).
    apply streak_done.
Defined.


Lemma authenticate_faceless_session_witness :
  euclid_authenticate enrolled true 0 [NO_FACE 1; NO_FACE 2] = None
  /\ euclid_authenticate enrolled true 0
       ([NO_FACE 1; NO_FACE 2] ++ MATCH 11 :: [])
     = Some (false, msg_timeout).
Proof.
  apply (authenticate_faceless_session Q sq_dist sqrt_le enrolled 0
           [NO_FACE 1; NO_FACE 2] (MATCH 11) []).
  - discriminate.
  - vm_compute. lia.
  - vm_compute. reflexivity.
  - vm_compute. reflexivity.
Defined.

(** ** Enrolment *)

(** *** The enrolment files *)

Ltac fm_unfold :=
  repeat progress
    (unfold ftry, mbind, FM_bind, mret, FM_ret, fbind, fret, fraise, os_call,
            set_known, get_known;
     cbv beta iota).

Section EnrolmentProps.
Variable Image Location : Type.
Variable decode_image : bytes -> option Image.
Variable face_locations : Image -> list Location.
Variable face_encodings : Image -> list Location -> list encoding.
Variable pickle_dumps : list encoding -> bytes.
Variable pickle_loads : bytes -> option (list encoding).

Abbreviation new := (FaceAuthenticator_new Image Location decode_image
                   face_locations face_encodings pickle_dumps pickle_loads).
Abbreviation create := (create_face_encodings Image Location decode_image
                      face_locations face_encodings pickle_dumps).
Abbreviation enrol_from := (enrol_from Image Location decode_image
                      face_locations face_encodings).
Abbreviation update := (update_reference_face Image Location decode_image
                      face_locations face_encodings pickle_dumps).

Lemma os_path_exists_run (p : path) (w : face_world) :
  os_call (os_path_exists p) w
  = (FOk (bool_decide (is_Some (fs (fw_os w) !! p))), w).
Proof. destruct w. reflexivity. Qed.


(** [create_face_encodings] on an image that yields none: it raises, and
    nothing has changed. *)
Lemma create_fails (paths : face_paths) (w : face_world) (f : file) :
  fs (fw_os w) !! reference_image_path paths = Some f ->
  enrol_from f = None ->
  exists e, create paths w = (FRaise e, w).
Proof.
  intros Hf Henrol. unfold enrol_from in Henrol.
  unfold create_face_encodings, load_image_file, read_file.
  fm_unfold. rewrite Hf.
  destruct w as [fa s]. cbn [fw_os fw_self] in *.
  destruct (readable f); [|eauto]. fm_unfold.
  destruct (decode_image (f_data f)) as [image|]; [|eauto]. fm_unfold.
  destruct (face_locations image) as [|l ls]; [eauto|].
  destruct (face_encodings image (l :: ls)) as [|e es]; [eauto|].
  discriminate.
Qed.


Abbreviation load_or_create := (load_or_create_encodings Image Location
   decode_image face_locations face_encodings pickle_dumps pickle_loads).

Lemma new_unfold (paths : face_paths) (w : face_world) :
  new paths w
  = load_or_create paths
      (mkFaceWorld (FaceAuthenticator_init []) (fw_os w)).
Proof. reflexivity. Qed.



(** X23.  Where there is no encodings file and the reference image is
    missing or yields no encoding, the constructor still returns
    normally: the object has no known encodings and no file is written. *)
Theorem construction_without_enrolment (paths : face_paths) (w : face_world) :
  fs (fw_os w) !! encodings_path paths = None ->
  (forall f, fs (fw_os w) !! reference_image_path paths = Some f ->
             enrol_from f = None) ->
  new paths w
  = (FOk tt, mkFaceWorld (FaceAuthenticator_init []) (fw_os w)).
Proof.
  intros Hp Himg. rewrite new_unfold.
  set (w0 := mkFaceWorld (FaceAuthenticator_init []) (fw_os w)).
  unfold load_or_create_encodings.
  unfold ftry at 1. unfold mbind, FM_bind. unfold fbind at 1.
  rewrite os_path_exists_run.
  change (fw_os w0) with (fw_os w).
  rewrite (exists_false _ _ Hp). cbv beta iota.
  unfold fbind at 1. rewrite os_path_exists_run.
  change (fw_os w0) with (fw_os w).
  destruct (fs (fw_os w) !! reference_image_path paths) as [f|] eqn:Hf.
  - rewrite bool_decide_eq_true_2 by eauto.
    destruct (create_fails paths w0 f Hf (Himg f eq_refl)) as [e He].
    rewrite He. reflexivity.
  - rewrite bool_decide_eq_false_2 by (intros [x Hx]; discriminate).
    reflexivity.
Qed.



Lemma backup_path_differs (p : path) : p <> String.append p ".backup".
Proof. intros H. symmetry in H. exact (append_longer _ _ _ H). Qed.

Abbreviation backup_of p := (String.append p ".backup").


(** The first two steps of [update_reference_face] when both images are
    there: the old reference is moved aside and the new one copied in. *)
Lemma update_unfold (paths : face_paths) (p : path) (w : face_world)
  (fold fnew : file) :
  fs (fw_os w) !! reference_image_path paths = Some fold ->
  fs (fw_os w) !! p = Some fnew ->
  p <> reference_image_path paths ->
  p <> backup_of (reference_image_path paths) ->
  readable fnew = true ->
  update paths p w
  = match create paths
            (mkFaceWorld (fw_self w)
               (set_fs (<[reference_image_path paths := fnew]>
                          (<[backup_of (reference_image_path paths) := fold]>
                             (delete (reference_image_path paths)
                                     (fs (fw_os w)))))
                       (EvCopy p (reference_image_path paths)) (fw_os w)))
    with
    | (FOk _, w') => (FOk true, w')
    | (FRaise _, w') => (FOk false, w')
    end.
Proof.
  intros Hold Hnew Hne1 Hne2 Hr.
  unfold update_reference_face.
  unfold ftry at 1. unfold mbind, FM_bind. unfold fbind at 1.
  rewrite os_path_exists_run.
  rewrite (exists_true _ _ _ Hold). cbv beta iota.
  unfold fbind at 1. unfold os_call at 1. unfold os_rename at 1.
  rewrite Hold. cbv beta iota.
  unfold fbind at 1. unfold os_call at 1. unfold shutil_copy2 at 1.
  cbn [fw_os fw_self fs].
  rewrite lookup_insert_ne by (intros E; apply Hne2; symmetry; exact E).
  rewrite lookup_delete_ne by (intros E; apply Hne1; symmetry; exact E).
  rewrite Hnew.
  rewrite bool_decide_eq_false_2 by exact Hne1.
  rewrite Hr. cbn [negb].
  rewrite lookup_insert_ne
    by (intros E; apply (backup_path_differs (reference_image_path paths));
        symmetry; exact E).
  rewrite lookup_delete_eq. cbv beta iota.
  unfold fbind at 1.
  destruct w as [fa s]. cbn [fw_os fw_self].
  unfold set_fs. cbn [self fs clock entropy cursor trace].
  destruct (create paths _) as [[[]|e] w']; reflexivity.
Qed.

(** X25.  [update_reference_face] with a new image that yields no
    encoding returns [False], but not before it has moved the old
    reference image to [<path>.backup] and put the new image in its
    place; the known encodings and the encodings file stay as they
    were. *)
Theorem update_reference_face_without_face (paths : face_paths) (p : path)
  (w : face_world) (fold fnew : file) :
  fs (fw_os w) !! reference_image_path paths = Some fold ->
  fs (fw_os w) !! p = Some fnew ->
  p <> reference_image_path paths ->
  p <> backup_of (reference_image_path paths) ->
  readable fnew = true ->
  enrol_from fnew = None ->
  update paths p w
  = (FOk false,
     mkFaceWorld (fw_self w)
       (set_fs (<[reference_image_path paths := fnew]>
                  (<[backup_of (reference_image_path paths) := fold]>
                     (delete (reference_image_path paths) (fs (fw_os w)))))
               (EvCopy p (reference_image_path paths)) (fw_os w))).
Proof.
  intros Hold Hnew Hne1 Hne2 Hr Henrol.
  rewrite (update_unfold paths p w fold fnew Hold Hnew Hne1 Hne2 Hr).
  match goal with
  | |- context [create paths ?w1] =>
      destruct (create_fails paths w1 fnew) as [e He];
      [cbn [fw_os set_fs fs]; apply lookup_insert_eq | exact Henrol |];
      rewrite He; reflexivity
  end.
Qed.

(** X26.  [update_reference_face] with a new image that does not exist
    returns [False] and leaves no reference image at all: the old one has
    been moved to [<path>.backup] and is not moved back. *)
Theorem update_reference_face_missing_image (paths : face_paths) (p : path)
  (w : face_world) (fold : file) :
  fs (fw_os w) !! reference_image_path paths = Some fold ->
  fs (fw_os w) !! p = None ->
  p <> backup_of (reference_image_path paths) ->
  exists w',
    update paths p w = (FOk false, w')
    /\ fw_self w' = fw_self w
    /\ fs (fw_os w') !! reference_image_path paths = None
    /\ fs (fw_os w') !! backup_of (reference_image_path paths) = Some fold
    /\ trace (fw_os w') = trace (fw_os w).
Proof.
  intros Hold Hnew Hne2.
  unfold update_reference_face.
  unfold ftry at 1. unfold mbind, FM_bind. unfold fbind at 1.
  rewrite os_path_exists_run.
  rewrite (exists_true _ _ _ Hold). cbv beta iota.
  unfold fbind at 1. unfold os_call at 1. unfold os_rename at 1.
  rewrite Hold. cbv beta iota.
  unfold fbind at 1. unfold os_call at 1. unfold shutil_copy2 at 1.
  cbn [fw_os fw_self fs].
  rewrite lookup_insert_ne by (intros E; apply Hne2; symmetry; exact E).
  assert (Hp : delete (reference_image_path paths) (fs (fw_os w)) !! p = None).
  { destruct (decide (p = reference_image_path paths)) as [->|Hne].
    - apply lookup_delete_eq.
    - rewrite lookup_delete_ne by (intros E; apply Hne; symmetry; exact E).
      exact Hnew. }
  rewrite Hp. cbv beta iota. unfold mret, FM_ret, fret.
  eexists. split; [reflexivity|]. cbn [fw_self fw_os fs trace].
  split; [reflexivity|]. split; [|split; [apply lookup_insert_eq|reflexivity]].
  rewrite lookup_insert_ne
    by (intros E; apply (backup_path_differs (reference_image_path paths));
        symmetry; exact E).
  apply lookup_delete_eq.
Qed.


End EnrolmentProps.

(** *** The enrolment theorems on the sample worlds *)


Lemma construction_without_enrolment_witness :
  toy_new default_paths (image_world [0])
  = (FOk tt,
     mkFaceWorld (FaceAuthenticator_init []) (fw_os (image_world [0]))).
Proof.
  apply (construction_without_enrolment bytes N toy_decode_image
           toy_face_locations toy_face_encodings toy_pickle_dumps
           toy_pickle_loads default_paths (image_world [0])).
  - vm_compute. reflexivity.
  - intros f Hf. vm_compute in Hf. injection Hf as <-.
    vm_compute. reflexivity.
Defined.


Lemma update_reference_face_without_face_witness :
  exists w',
    toy_update default_paths "new.jpg" (update_world [0]) = (FOk false, w')
    /\ fw_self w' = fw_self enrolled_world
    /\ fs (fw_os w') !! "user_face.jpg"%string = Some (File [0] mode_default)
    /\ fs (fw_os w') !! "user_face.jpg.backup"%string
       = Some (File [5] mode_default)
    /\ fs (fw_os w') !! "face_encodings.pkl"%string
       = Some (File [5] mode_default).
Proof.
  unfold toy_update.
  rewrite (update_reference_face_without_face bytes N toy_decode_image
             toy_face_locations toy_face_encodings toy_pickle_dumps
             default_paths "new.jpg" (update_world [0])
             (File [5] mode_default) (File [0] mode_default));
    try (vm_compute; reflexivity);
    try (intros E; vm_compute in E; discriminate E).
  eexists. split; [reflexivity|]. repeat split; vm_compute; reflexivity.
Defined.

Lemma update_reference_face_missing_image_witness :
  exists w',
    toy_update default_paths "missing.jpg" enrolled_world = (FOk false, w')
    /\ fw_self w' = fw_self enrolled_world
    /\ fs (fw_os w') !! reference_image_path default_paths = None
    /\ fs (fw_os w')
       !! String.append (reference_image_path default_paths) ".backup"
       = Some (File [5] mode_default)
    /\ trace (fw_os w') = trace (fw_os enrolled_world).
Proof.
  apply (update_reference_face_missing_image bytes N toy_decode_image
           toy_face_locations toy_face_encodings toy_pickle_dumps
           default_paths "missing.jpg" enrolled_world
           (File [5] mode_default));
    try (vm_compute; reflexivity).
  intros E. vm_compute in E. discriminate E.
Defined.


(** ** The notes window and the setup script *)

(** *** The notes window *)





Section AppProps.
Context `{Cryptography}.

(** X28.  The notes window cannot tell a vault that is missing, unreadable
    or undecryptable from an empty one: in each case [load_vault_data]
    shows empty notes and an empty last-modified line, with no error
    box. *)
Theorem load_vault_data_blank (s : state) :
  (fs s !! data_file (self s) = None
   \/ exists f, fs s !! data_file (self s) = Some f
                /\ (readable f = false
                    \/ forall k, cipher (self s) = Some k ->
                                 fernet_decrypt k (f_data f) = None)) ->
  load_vault_data s = (Ok (Shown (JStr []) (JStr [])), s).
Proof.
  intros Hbad.
  assert (Hload : load_data s = (Ok empty_record, s)).
  { destruct Hbad as [Hno|(f & Hf & Hbad)].
    - unfold load_data, os_path_exists. monad_unfold.
      rewrite (exists_false _ _ Hno). reflexivity.
    - exact (load_data_fallback s f Hf Hbad). }
  unfold load_vault_data. unfold try_except. rewrite run_bind, Hload.
  reflexivity.
Qed.


End AppProps.

(** *** The notes window on the sample states *)

Lemma load_vault_data_blank_witness :
  @load_vault_data toy_cryptography tampered_vault
  = (Ok (Shown (JStr []) (JStr [])), tampered_vault).
Proof.
  apply (@load_vault_data_blank toy_cryptography tampered_vault).
  right. exists (File [1; 2; 3] mode_600).
  split; [vm_compute; reflexivity|].
  right. intros k Hk. vm_compute in Hk. injection Hk as <-.
  vm_compute. reflexivity.
Defined.


(** *** The setup script *)

(** X30.  [install_system_dependencies] installs nothing: on every
    platform and whatever the probes answer, the only commands it runs
    are [which] look-ups, and it returns [True] only on Linux, macOS or
    Windows. *)
Theorem install_system_dependencies_only_probes (platform_system : string)
  (probe : command -> result Z) :
  forallb is_which_probe
    (snd (install_system_dependencies platform_system probe)) = true
  /\ (fst (install_system_dependencies platform_system probe) = Ok true ->
      In (string_lower platform_system)
         ["linux"; "darwin"; "windows"]%string).
Proof.
  unfold install_system_dependencies, which_found.
  destruct (String.eqb (string_lower platform_system) "linux") eqn:El.
  { apply String.eqb_eq in El. rewrite El.
    destruct (probe ["which"; "apt"]%string) as [rc|e];
      [destruct (rc =? 0)%Z|]; cbn; auto.
    destruct (probe ["which"; "yum"]%string) as [rc'|e];
      [destruct (rc' =? 0)%Z|]; cbn; auto. }
  destruct (String.eqb (string_lower platform_system) "darwin") eqn:Ed.
  { apply String.eqb_eq in Ed. rewrite Ed.
    destruct (probe ["which"; "brew"]%string) as [rc|e];
      [destruct (rc =? 0)%Z|]; cbn; auto. }
  destruct (String.eqb (string_lower platform_system) "windows") eqn:Ew.
  { apply String.eqb_eq in Ew. rewrite Ew. cbn. auto 6. }
  cbn. split; [reflexivity | discriminate].
Qed.
